(** * vctrs, [src/type.c]: vector kinds, the vector predicate and the shared constants

    A shallow embedding of [type.c].  The R runtime the file is written
    against (object headers, the allocator, the precious list, the protect
    stack) is modelled as an explicit machine state; the functions of
    [type.c] are translated one by one on top of it, keeping their names. *)

From stdpp Require Import gmap strings list.
From Stdlib Require Import ZArith Ascii.

Local Open Scope Z_scope.
Local Open Scope string_scope.
Local Open Scope list_scope.

(** ** The host object model *)

(** Modelled from the spec: the representation tags of the host (R's
    [SEXPTYPE], declared in Rinternals.h, not part of this repository). *)
Inductive SEXPTYPE : Set :=
| NILSXP | SYMSXP | LISTSXP | CLOSXP | ENVSXP | PROMSXP | LANGSXP
| SPECIALSXP | BUILTINSXP | CHARSXP | LGLSXP | INTSXP | REALSXP | CPLXSXP
| STRSXP | DOTSXP | ANYSXP | VECSXP | EXPRSXP | BCODESXP | EXTPTRSXP
| WEAKREFSXP | RAWSXP | S4SXP.

#[global] Instance SEXPTYPE_eq_dec : EqDecision SEXPTYPE.
Proof. solve_decision. Defined.

(** A [SEXP] is a pointer into the host heap. *)
Abbreviation SEXP := positive.

(** The data area of a vector.  Only the areas [type.c] reads or writes are
    represented: the [int] cells behind [LOGICAL()] / [INTEGER()], where
    [None] is a cell that was allocated and not yet written, and the strings
    of a character vector. *)
Inductive payload : Type :=
| data_int (cells : list (option Z))
| data_str (cells : list string)
| data_other.

(** Modelled from the spec: the header of a host value, as far as [type.c]
    looks at it: the representation tag ([TYPEOF]), the object bit
    ([OBJECT]), the sharing count ([NAMED]), the class attribute, the
    length and the data area. *)
Record SEXPREC : Type := mkSEXPREC {
  sxp_type : SEXPTYPE;
  sxp_obj : bool;
  sxp_named : Z;
  sxp_klass : list string;
  sxp_length : Z;
  sxp_data : payload
}.

(** IEEE-754 doubles are carried as their 64-bit pattern. *)
Record Rcomplex : Type := mkRcomplex { cplx_r : Z; cplx_i : Z }.

(** Modelled from the spec: the host's canonical missing-number marker
    ([NA_REAL]): the NaN whose low word is 1954. *)
Definition NA_REAL : Z := Z.lor (Z.shiftl 0x7FF00000 32) 1954.

(** The machine state: the host heap, the keep-alive list
    ([R_PreciousList]), the protect stack, and the file-scope variables of
    [type.c] (a pointer variable that is absent from [globals] is [NULL]). *)
Record state : Type := mkState {
  R_heap : gmap positive SEXPREC;
  R_PreciousList : list SEXP;
  R_PPStack : list SEXP;
  globals : gmap string SEXP;
  vctrs_shared_na_cpl : Rcomplex
}.

Definition set_heap (f : gmap positive SEXPREC → gmap positive SEXPREC) (st : state) : state :=
  mkState (f (R_heap st)) (R_PreciousList st) (R_PPStack st) (globals st)
          (vctrs_shared_na_cpl st).

Definition set_precious (f : list SEXP → list SEXP) (st : state) : state :=
  mkState (R_heap st) (f (R_PreciousList st)) (R_PPStack st) (globals st)
          (vctrs_shared_na_cpl st).

Definition set_ppstack (f : list SEXP → list SEXP) (st : state) : state :=
  mkState (R_heap st) (R_PreciousList st) (f (R_PPStack st)) (globals st)
          (vctrs_shared_na_cpl st).

Definition set_globals (f : gmap string SEXP → gmap string SEXP) (st : state) : state :=
  mkState (R_heap st) (R_PreciousList st) (R_PPStack st) (f (globals st))
          (vctrs_shared_na_cpl st).

Definition set_na_cpl (f : Rcomplex → Rcomplex) (st : state) : state :=
  mkState (R_heap st) (R_PreciousList st) (R_PPStack st) (globals st)
          (f (vctrs_shared_na_cpl st)).

(** What a dangling pointer reads as: a header with no vector tag, no
    object bit and no class. *)
#[global] Instance SEXPREC_inhabited : Inhabited SEXPREC :=
  populate (mkSEXPREC ANYSXP false 0 [] 0 data_other).

Definition deref (st : state) (x : SEXP) : SEXPREC := R_heap st !!! x.

(** Modelled from the spec: the host value representation query, [TYPEOF]
    and [OBJECT] of Rinternals.h. *)
Definition TYPEOF (st : state) (x : SEXP) : SEXPTYPE := sxp_type (deref st x).
Definition OBJECT (st : state) (x : SEXP) : bool := sxp_obj (deref st x).

(** Modelled from the spec: [Rf_inherits] of the host: the value is an
    object and one of the strings of its class attribute is [name]. *)
Definition Rf_inherits (st : state) (x : SEXP) (name : string) : bool :=
  OBJECT st x && existsb (String.eqb name) (sxp_klass (deref st x)).

(** ** Kind taxonomy *)

(** Modelled from the spec: [enum vctrs_type], declared in vctrs.h; its
    eleven enumerators are the ones [type.c] switches over. *)
Inductive vctrs_type : Set :=
| vctrs_type_null
| vctrs_type_logical
| vctrs_type_integer
| vctrs_type_double
| vctrs_type_complex
| vctrs_type_character
| vctrs_type_raw
| vctrs_type_list
| vctrs_type_dataframe
| vctrs_type_s3
| vctrs_type_scalar.

#[global] Instance vctrs_type_eq_dec : EqDecision vctrs_type.
Proof. solve_decision. Defined.

Definition all_vctrs_types : list vctrs_type :=
  [ vctrs_type_null; vctrs_type_logical; vctrs_type_integer; vctrs_type_double;
    vctrs_type_complex; vctrs_type_character; vctrs_type_raw; vctrs_type_list;
    vctrs_type_dataframe; vctrs_type_s3; vctrs_type_scalar ].

(** ** Type resolver *)

Definition is_data_frame (st : state) (x : SEXP) : bool :=
  Rf_inherits st x "data.frame".

Definition is_record (st : state) (x : SEXP) : bool :=
  Rf_inherits st x "vctrs_rcrd" || Rf_inherits st x "POSIXlt".

Definition vec_typeof_impl (st : state) (x : SEXP) (dispatch : bool) : vctrs_type :=
  match TYPEOF st x with
  | NILSXP => vctrs_type_null
  | LGLSXP => if OBJECT st x && dispatch then vctrs_type_s3 else vctrs_type_logical
  | INTSXP => if OBJECT st x && dispatch then vctrs_type_s3 else vctrs_type_integer
  | REALSXP => if OBJECT st x && dispatch then vctrs_type_s3 else vctrs_type_double
  | CPLXSXP => if OBJECT st x && dispatch then vctrs_type_s3 else vctrs_type_complex
  | STRSXP => if OBJECT st x && dispatch then vctrs_type_s3 else vctrs_type_character
  | RAWSXP => if OBJECT st x && dispatch then vctrs_type_s3 else vctrs_type_raw
  | VECSXP =>
      if negb (OBJECT st x) then vctrs_type_list
      else if is_data_frame st x then vctrs_type_dataframe
      else if dispatch then vctrs_type_s3
      else vctrs_type_scalar
  | _ => vctrs_type_scalar
  end.

Definition vec_typeof (st : state) (x : SEXP) : vctrs_type :=
  vec_typeof_impl st x true.

Definition vec_type_as_str (type : vctrs_type) : string :=
  match type with
  | vctrs_type_null => "null"
  | vctrs_type_logical => "logical"
  | vctrs_type_integer => "integer"
  | vctrs_type_double => "double"
  | vctrs_type_complex => "complex"
  | vctrs_type_character => "character"
  | vctrs_type_raw => "raw"
  | vctrs_type_list => "list"
  | vctrs_type_dataframe => "dataframe"
  | vctrs_type_s3 => "s3"
  | vctrs_type_scalar => "scalar"
  end.

(** The six primitive scalar-array representations, and the kind each one
    stands for. *)
Definition primitive_kind (t : SEXPTYPE) : option vctrs_type :=
  match t with
  | LGLSXP => Some vctrs_type_logical
  | INTSXP => Some vctrs_type_integer
  | REALSXP => Some vctrs_type_double
  | CPLXSXP => Some vctrs_type_complex
  | STRSXP => Some vctrs_type_character
  | RAWSXP => Some vctrs_type_raw
  | _ => None
  end.

(** ** Effects *)

(** The only call [type.c] makes into code it does not control is
    [vec_proxy]; every call is recorded. *)
Inductive event : Type :=
| ProxyCall (x : SEXP).

(** How a call ends: it returns, it leaves through an R error (a
    [longjmp], the state being the one at the point of the error), it runs
    into undefined behaviour of C, or the model's recursion budget is
    used up. *)
Inductive outcome (A : Type) : Type :=
| Normal (a : A) (st : state)
| Rf_error (msg : string) (st : state)
| Undefined
| OutOfFuel.

Arguments Normal {A} a st.
Arguments Rf_error {A} msg st.
Arguments Undefined {A}.
Arguments OutOfFuel {A}.

Definition M (A : Type) : Type := state → list event * outcome A.

#[global] Instance M_ret : MRet M := λ A a st, ([], Normal a st).

#[global] Instance M_bind : MBind M := λ A B f m st,
  match m st with
  | (tr, Normal a st') => let (tr', o) := f a st' in (tr ++ tr', o)
  | (tr, Rf_error msg st') => (tr, Rf_error msg st')
  | (tr, Undefined) => (tr, Undefined)
  | (tr, OutOfFuel) => (tr, OutOfFuel)
  end.

Definition get_state : M state := λ st, ([], Normal st st).
Definition modify (f : state → state) : M unit := λ st, ([], Normal tt (f st)).
Definition raise {A} (msg : string) : M A := λ st, ([], Rf_error msg st).
Definition undefined {A} : M A := λ _, ([], Undefined).
Definition out_of_fuel {A} : M A := λ _, ([], OutOfFuel).

(** The trace and the final state of a run. *)
Definition trace_of {A} (r : list event * outcome A) : list event := r.1.

Definition state_of {A} (r : list event * outcome A) : option state :=
  match r.2 with
  | Normal _ st | Rf_error _ st => Some st
  | _ => None
  end.

(** Number of calls to the proxy protocol in a trace. *)
Definition proxy_calls (tr : list event) : nat := length tr.

(** *** Host primitives used by [type.c] *)

(** Modelled from the spec: [PROTECT] / [UNPROTECT] of the host: push on
    and pop from the protect stack. *)
Definition PROTECT (x : SEXP) : M SEXP :=
  modify (set_ppstack (cons x)) ;; mret x.

Definition UNPROTECT (n : nat) : M unit :=
  st ← get_state;
  if decide (n ≤ length (R_PPStack st))%nat
  then modify (set_ppstack (drop n))
  else raise "unprotect(): stack imbalance".

(** Assignment to a pointer variable at file scope. *)
Definition assign (var : string) (x : SEXP) : M unit :=
  modify (set_globals (insert var x)).

(** Calls [f] on the pointer held by [var]; handing a [NULL] pointer to the
    host is undefined. *)
Definition with_var {A} (var : string) (f : SEXP → M A) : M A :=
  st ← get_state;
  match globals st !! var with
  | Some x => f x
  | None => undefined
  end.

(** Modelled from the spec: a freshly allocated vector: no object bit, no
    class, sharing count zero; [int] cells are left unwritten, strings are
    blank. *)
Definition new_vector (ty : SEXPTYPE) (n : Z) : SEXPREC :=
  mkSEXPREC ty false 0 [] n
    match ty with
    | LGLSXP | INTSXP => data_int (replicate (Z.to_nat n) None)
    | STRSXP => data_str (replicate (Z.to_nat n) "")
    | _ => data_other
    end.

(** Modelled from the spec: [Rf_allocVector] of the host: a new object at
    an address that is not in use. *)
Definition Rf_allocVector (ty : SEXPTYPE) (n : Z) : M SEXP :=
  if decide (n < 0)%Z then raise "negative length vectors are not allowed"
  else
    st ← get_state;
    let x := fresh (dom (R_heap st)) in
    modify (set_heap (insert x (new_vector ty n))) ;;
    mret x.

(** Changes the object [x] points to; a dangling pointer is undefined. *)
Definition update_obj (x : SEXP) (f : SEXPREC → SEXPREC) : M unit :=
  st ← get_state;
  match R_heap st !! x with
  | Some o => modify (set_heap (insert x (f o)))
  | None => undefined
  end.

(** Modelled from the spec: the keep-alive primitive, [R_PreserveObject]:
    the object is consed onto the precious list. *)
Definition R_PreserveObject (x : SEXP) : M unit :=
  modify (set_precious (cons x)).

(** Modelled from the spec: the largest sharing count of the host,
    [NAMEDMAX] of Rinternals.h. *)
Definition NAMEDMAX : Z := 7.

Definition set_named (n : Z) (o : SEXPREC) : SEXPREC :=
  mkSEXPREC (sxp_type o) (sxp_obj o) n (sxp_klass o) (sxp_length o) (sxp_data o).

(** Modelled from the spec: the immutability mark, [MARK_NOT_MUTABLE]:
    the sharing count is set to [NAMEDMAX], so that the host sees the
    object as shared ([MAYBE_SHARED]) and copies it before changing it. *)
Definition MARK_NOT_MUTABLE (x : SEXP) : M unit :=
  update_obj x (set_named NAMEDMAX).

Definition MAYBE_SHARED (o : SEXPREC) : bool := (1 <? sxp_named o)%Z.

(** [LOGICAL(x)[i]] as an rvalue and as an lvalue.  The host checks the
    representation tag; an index outside the data area, or reading a cell
    that was never written, is undefined.  The store does not look at the
    sharing count. *)
Definition LOGICAL_get (x : SEXP) (i : nat) : M Z :=
  st ← get_state;
  match R_heap st !! x with
  | Some o =>
      if decide (sxp_type o = LGLSXP) then
        match sxp_data o with
        | data_int cells =>
            match cells !! i with
            | Some (Some v) => mret v
            | _ => undefined
            end
        | _ => undefined
        end
      else raise "LOGICAL() can only be applied to a 'logical'"
  | None => undefined
  end.

Definition set_cell (i : nat) (v : Z) (o : SEXPREC) : SEXPREC :=
  mkSEXPREC (sxp_type o) (sxp_obj o) (sxp_named o) (sxp_klass o) (sxp_length o)
    match sxp_data o with
    | data_int cells => data_int (<[i := Some v]> cells)
    | d => d
    end.

Definition LOGICAL_set (x : SEXP) (i : nat) (v : Z) : M unit :=
  st ← get_state;
  match R_heap st !! x with
  | Some o =>
      if decide (sxp_type o = LGLSXP) then
        match sxp_data o with
        | data_int cells =>
            if decide (i < length cells)%nat then update_obj x (set_cell i v)
            else undefined
        | _ => undefined
        end
      else raise "LOGICAL() can only be applied to a 'logical'"
  | None => undefined
  end.

Definition set_str_cell (i : nat) (s : string) (o : SEXPREC) : SEXPREC :=
  mkSEXPREC (sxp_type o) (sxp_obj o) (sxp_named o) (sxp_klass o) (sxp_length o)
    match sxp_data o with
    | data_str cells => data_str (<[i := s]> cells)
    | d => d
    end.

(** [Rf_ScalarLogical] and [Rf_mkString] of the host, which box the answers
    of the two [.Call] entry points.  Neither is part of this repository
    and the specification does not describe them; they are taken here as
    the allocation of a length-one vector holding the value.  (R may hand
    back a shared object for a logical instead of allocating: where a
    result below names the boxed object, it is the object of this model.) *)
Definition Rf_ScalarLogical (v : Z) : M SEXP :=
  x ← Rf_allocVector LGLSXP 1;
  LOGICAL_set x 0 v;;
  mret x.

Definition Rf_mkString (s : string) : M SEXP :=
  x ← Rf_allocVector STRSXP 1;
  update_obj x (set_str_cell 0 s);;
  mret x.

(** Modelled from the spec: the host's reclaimer.  It may free any of the
    objects in [victims], except those registered on the precious list or
    held on the protect stack. *)
Definition R_gc (victims : list SEXP) : M unit :=
  st ← get_state;
  modify (set_heap (filter (λ kv : positive * SEXPREC,
    kv.1 ∉ victims ∨ kv.1 ∈ R_PreciousList st ∨ kv.1 ∈ R_PPStack st))).

(** A function of the host, or of another file of the package, that is
    called from [type.c]: it may change the state in any way, and it
    either returns a value or raises an R error. *)
Definition extern : Type := state → (string + SEXP) * state.

Definition call (f : extern) : M SEXP := λ st,
  match f st with
  | (inr v, st') => ([], Normal v st')
  | (inl msg, st') => ([], Rf_error msg st')
  end.

Definition log (e : event) : M unit := λ st, ([e], Normal tt st).

(** C's conversion of an [int] to [bool]. *)
Definition int_as_bool (v : Z) : bool := negb (v =? 0)%Z.
Definition bool_as_int (b : bool) : Z := if b then 1 else 0.

(** ** The functions of [type.c] that call out *)

Section type_c.

(** The external proxy protocol, [vec_proxy] (declared in vctrs.h). *)
Variable vec_proxy : SEXP → extern.

(** [Rf_install] and [Rf_findVar] of the host. *)
Variable Rf_install : string → extern.
Variable Rf_findVar : SEXP → SEXP → extern.

(** ** Vector predicate *)

(** One unit of [fuel] is one activation of the C function: [fuel] bounds
    the recursion depth. *)
Fixpoint vec_is_vector_rec (fuel : nat) (x : SEXP) (dispatch : bool) : M bool :=
  match fuel with
  | O => out_of_fuel
  | S fuel =>
      st ← get_state;
      match vec_typeof_impl st x dispatch with
      | vctrs_type_logical
      | vctrs_type_integer
      | vctrs_type_double
      | vctrs_type_complex
      | vctrs_type_character
      | vctrs_type_raw
      | vctrs_type_list
      | vctrs_type_dataframe =>
          mret true
      | vctrs_type_s3 =>
          proxy ← (log (ProxyCall x);; p ← call (vec_proxy x); PROTECT p);
          out ← vec_is_vector_rec fuel proxy false;
          UNPROTECT 1;;
          mret out
      | _ =>
          mret false
      end
  end.

Definition vec_is_vector (fuel : nat) (x : SEXP) : M bool :=
  vec_is_vector_rec fuel x true.

Definition vctrs_is_vector (fuel : nat) (x dispatch : SEXP) : M SEXP :=
  d ← LOGICAL_get dispatch 0;
  b ← vec_is_vector_rec fuel x (int_as_bool d);
  Rf_ScalarLogical (bool_as_int b).

Definition vctrs_stop_unsupported_type (type : vctrs_type) (fn : string) : M unit :=
  raise ("Unsupported vctrs type `" +:+ vec_type_as_str type +:+ "` in `" +:+ fn +:+ "`").

Definition vctrs_typeof (x dispatch : SEXP) : M SEXP :=
  d ← LOGICAL_get dispatch 0;
  st ← get_state;
  Rf_mkString (vec_type_as_str (vec_typeof_impl st x (int_as_bool d))).

(** ** Constant pool *)

Definition vctrs_init_types (ns : SEXP) : M unit :=
  sym ← call (Rf_install "vec_is_vector");
  assign "syms_vec_is_vector_dispatch" sym;;
  fn ← with_var "syms_vec_is_vector_dispatch" (λ sym, call (Rf_findVar sym ns));
  assign "fns_vec_is_vector_dispatch" fn;;

  x ← Rf_allocVector LGLSXP 0; assign "vctrs_shared_empty_lgl" x;;
  with_var "vctrs_shared_empty_lgl" R_PreserveObject;;
  with_var "vctrs_shared_empty_lgl" MARK_NOT_MUTABLE;;

  x ← Rf_allocVector INTSXP 0; assign "vctrs_shared_empty_int" x;;
  with_var "vctrs_shared_empty_int" R_PreserveObject;;
  with_var "vctrs_shared_empty_int" MARK_NOT_MUTABLE;;

  x ← Rf_allocVector REALSXP 0; assign "vctrs_shared_empty_dbl" x;;
  with_var "vctrs_shared_empty_dbl" R_PreserveObject;;
  with_var "vctrs_shared_empty_dbl" MARK_NOT_MUTABLE;;

  x ← Rf_allocVector CPLXSXP 0; assign "vctrs_shared_empty_cpl" x;;
  with_var "vctrs_shared_empty_cpl" R_PreserveObject;;
  with_var "vctrs_shared_empty_cpl" MARK_NOT_MUTABLE;;

  x ← Rf_allocVector STRSXP 0; assign "vctrs_shared_empty_chr" x;;
  with_var "vctrs_shared_empty_chr" R_PreserveObject;;
  with_var "vctrs_shared_empty_chr" MARK_NOT_MUTABLE;;

  x ← Rf_allocVector RAWSXP 0; assign "vctrs_shared_empty_raw" x;;
  with_var "vctrs_shared_empty_raw" R_PreserveObject;;
  with_var "vctrs_shared_empty_raw" MARK_NOT_MUTABLE;;

  x ← Rf_allocVector VECSXP 0; assign "vctrs_shared_empty_list" x;;
  with_var "vctrs_shared_empty_list" R_PreserveObject;;
  with_var "vctrs_shared_empty_list" MARK_NOT_MUTABLE;;

  x ← Rf_allocVector LGLSXP 1; assign "vctrs_shared_true" x;;
  with_var "vctrs_shared_true" R_PreserveObject;;
  with_var "vctrs_shared_true" MARK_NOT_MUTABLE;;
  with_var "vctrs_shared_true" (λ x, LOGICAL_set x 0 1);;

  x ← Rf_allocVector LGLSXP 1; assign "vctrs_shared_false" x;;
  with_var "vctrs_shared_false" R_PreserveObject;;
  with_var "vctrs_shared_false" MARK_NOT_MUTABLE;;
  with_var "vctrs_shared_false" (λ x, LOGICAL_set x 0 0);;

  modify (set_na_cpl (λ c, mkRcomplex (cplx_r c) NA_REAL));;
  modify (set_na_cpl (λ c, mkRcomplex NA_REAL (cplx_i c))).

End type_c.

(** ** Vocabulary of the specification *)

(** The kinds that are unconditionally vector-shaped. *)
Definition vector_kinds : list vctrs_type :=
  [ vctrs_type_logical; vctrs_type_integer; vctrs_type_double; vctrs_type_complex;
    vctrs_type_character; vctrs_type_raw; vctrs_type_list; vctrs_type_dataframe ].

Definition is_vector_kind (k : vctrs_type) : bool := bool_decide (k ∈ vector_kinds).

Definition kind_names : list string :=
  [ "null"; "logical"; "integer"; "double"; "complex"; "character"; "raw"; "list";
    "dataframe"; "s3"; "scalar" ].

Definition ascii_to_lower (c : ascii) : ascii :=
  let n := nat_of_ascii c in
  if ((65 <=? n) && (n <=? 90))%nat then ascii_of_nat (n + 32) else c.

Fixpoint to_lower (s : string) : string :=
  match s with
  | EmptyString => EmptyString
  | String c s' => String (ascii_to_lower c) (to_lower s')
  end.

(** *** The constant pool, as its readers see it *)

Definition shared_empty_vars : list (string * SEXPTYPE) :=
  [ ("vctrs_shared_empty_lgl", LGLSXP); ("vctrs_shared_empty_int", INTSXP);
    ("vctrs_shared_empty_dbl", REALSXP); ("vctrs_shared_empty_cpl", CPLXSXP);
    ("vctrs_shared_empty_chr", STRSXP); ("vctrs_shared_empty_raw", RAWSXP);
    ("vctrs_shared_empty_list", VECSXP) ].

Definition shared_vars : list string :=
  shared_empty_vars.*1 ++ [ "vctrs_shared_true"; "vctrs_shared_false" ].

(** The variable [var] holds the address [a] of a live object [o] that is
    registered on the precious list. *)
Definition shared_at (st : state) (var : string) (a : SEXP) (o : SEXPREC) : Prop :=
  globals st !! var = Some a ∧ R_heap st !! a = Some o ∧ a ∈ R_PreciousList st.

Definition shared (st : state) (var : string) (o : SEXPREC) : Prop :=
  ∃ a, shared_at st var a o.

(** An object as [vctrs_init_types] leaves it: of the given tag and length,
    without class, and marked not mutable. *)
Definition constant (ty : SEXPTYPE) (n : Z) (d : payload) : SEXPREC :=
  mkSEXPREC ty false NAMEDMAX [] n d.

Definition pool_ready (st : state) : Prop :=
  shared st "vctrs_shared_empty_lgl" (constant LGLSXP 0 (data_int [])) ∧
  shared st "vctrs_shared_empty_int" (constant INTSXP 0 (data_int [])) ∧
  shared st "vctrs_shared_empty_dbl" (constant REALSXP 0 data_other) ∧
  shared st "vctrs_shared_empty_cpl" (constant CPLXSXP 0 data_other) ∧
  shared st "vctrs_shared_empty_chr" (constant STRSXP 0 (data_str [])) ∧
  shared st "vctrs_shared_empty_raw" (constant RAWSXP 0 data_other) ∧
  shared st "vctrs_shared_empty_list" (constant VECSXP 0 data_other) ∧
  shared st "vctrs_shared_true" (constant LGLSXP 1 (data_int [Some 1])) ∧
  shared st "vctrs_shared_false" (constant LGLSXP 1 (data_int [Some 0])) ∧
  vctrs_shared_na_cpl st = mkRcomplex NA_REAL NA_REAL.

(** What a reader of one pool variable observes: the reference, the object
    behind it, and whether it is still registered as kept alive. *)
Definition pool_entry (st : state) (var : string) : option (SEXP * option SEXPREC * bool) :=
  a ← globals st !! var;
  Some (a, R_heap st !! a, bool_decide (a ∈ R_PreciousList st)).

(** A reader of any pool variable observes in [st'] what it observed in
    [st]: the same reference, the same object, the same registration, and
    the same missing-complex value. *)
Definition pool_unchanged (st st' : state) : Prop :=
  (∀ var, var ∈ shared_vars → pool_entry st' var = pool_entry st var) ∧
  vctrs_shared_na_cpl st' = vctrs_shared_na_cpl st.

(** Every pool variable refers to a live, registered object that is marked
    not mutable. *)
Definition pool_live (st : state) : Prop :=
  ∀ var, var ∈ shared_vars → ∃ a o, shared_at st var a o ∧ MAYBE_SHARED o = true.

(** *** Operations after initialisation *)

(** The entry points of [type.c] other than the initialiser, and a run of
    the host's reclaimer. *)
Inductive op : Type :=
| op_vec_typeof (x : SEXP)
| op_vec_is_vector (x : SEXP)
| op_vctrs_is_vector (x dispatch : SEXP)
| op_vctrs_typeof (x dispatch : SEXP)
| op_vctrs_stop_unsupported_type (type : vctrs_type) (fn : string)
| op_gc (victims : list SEXP).

(** The host's top level: an R error ends the call, the protect stack is
    reset to what it was at the call, and the process goes on. *)
Definition toplevel {A} (m : M A) : M unit := λ st,
  match m st with
  | (tr, Normal _ st') => (tr, Normal tt st')
  | (tr, Rf_error _ st') => (tr, Normal tt (set_ppstack (λ _, R_PPStack st) st'))
  | (tr, Undefined) => (tr, Undefined)
  | (tr, OutOfFuel) => (tr, OutOfFuel)
  end.

Definition run_op (vec_proxy : SEXP → extern) (fuel : nat) (o : op) : M unit :=
  match o with
  | op_vec_typeof x => toplevel (st ← get_state; mret (vec_typeof st x))
  | op_vec_is_vector x => toplevel (vec_is_vector vec_proxy fuel x)
  | op_vctrs_is_vector x dispatch => toplevel (vctrs_is_vector vec_proxy fuel x dispatch)
  | op_vctrs_typeof x dispatch => toplevel (vctrs_typeof x dispatch)
  | op_vctrs_stop_unsupported_type type fn => toplevel (vctrs_stop_unsupported_type type fn)
  | op_gc victims => R_gc victims
  end.

Fixpoint run_ops (vec_proxy : SEXP → extern) (fuel : nat) (ops : list op) : M unit :=
  match ops with
  | [] => mret tt
  | o :: ops' => run_op vec_proxy fuel o;; run_ops vec_proxy fuel ops'
  end.

(** A computation leaves the pool as it found it, however it ends. *)
Definition keeps_pool {A} (m : M A) : Prop :=
  ∀ st st', pool_live st → state_of (m st) = Some st' → pool_unchanged st st'.

(** The contract of §6 for code outside [type.c], here the code behind the
    proxy protocol: it does not assign the pool variables, releases nothing
    from the precious list, and neither frees nor writes to a registered
    object that is marked not mutable. *)
Definition honours_marks (f : extern) : Prop :=
  ∀ st,
    (∀ var, var ∈ shared_vars → globals (f st).2 !! var = globals st !! var) ∧
    vctrs_shared_na_cpl (f st).2 = vctrs_shared_na_cpl st ∧
    (∀ a, a ∈ R_PreciousList st → a ∈ R_PreciousList (f st).2) ∧
    (∀ a o, a ∈ R_PreciousList st → R_heap st !! a = Some o →
            MAYBE_SHARED o = true → R_heap (f st).2 !! a = Some o).

(** An external call leaves the pool as it found it. *)
Definition respects_pool (f : extern) : Prop :=
  ∀ st, pool_live st → pool_unchanged st (f st).2.

(** [st'] differs from [st] at most in the protect stack and in heap
    objects that are not both live and registered in [st]. *)
Definition kept (st st' : state) : Prop :=
  globals st' = globals st ∧
  R_PreciousList st' = R_PreciousList st ∧
  vctrs_shared_na_cpl st' = vctrs_shared_na_cpl st ∧
  ∀ a, a ∈ R_PreciousList st → is_Some (R_heap st !! a) → R_heap st' !! a = R_heap st !! a.

(** Total correctness of a run that makes no proxy call: it returns, and
    the result and final state satisfy [Q]. *)
Definition wp {A} (m : M A) (Q : A → state → Prop) (st : state) : Prop :=
  match m st with
  | ([], Normal a st') => Q a st'
  | _ => False
  end.

(** The state after one pool variable has been set up: a new registered
    object [o] at [a], referred to by [var]. *)
Definition add_shared (var : string) (a : SEXP) (o : SEXPREC) (st : state) : state :=
  mkState (<[a := o]> (R_heap st)) (a :: R_PreciousList st) (R_PPStack st)
          (<[var := a]> (globals st)) (vctrs_shared_na_cpl st).

(** ** Concrete values and stubs *)

Definition R_NilValue : SEXP := 1%positive.
Definition x_lgl : SEXP := 2%positive.
Definition x_factor : SEXP := 3%positive.
Definition x_list : SEXP := 4%positive.
Definition x_df : SEXP := 5%positive.
Definition x_rcrd : SEXP := 6%positive.
Definition x_fn : SEXP := 7%positive.
Definition x_int : SEXP := 8%positive.
Definition x_posixlt : SEXP := 9%positive.
Definition x_true : SEXP := 10%positive.
Definition x_false : SEXP := 11%positive.
Definition x_custom_list : SEXP := 12%positive.
Definition x_date : SEXP := 13%positive.

(** A small heap: the null value, bare and classed arrays, bare and classed
    lists, a closure. *)
Definition demo_heap : gmap positive SEXPREC :=
  list_to_map
    [ (R_NilValue, mkSEXPREC NILSXP false NAMEDMAX [] 0 data_other);
      (x_lgl, mkSEXPREC LGLSXP false 0 [] 0 (data_int []));
      (x_factor, mkSEXPREC INTSXP true 0 ["factor"] 2 (data_int [Some 1; Some 2]));
      (x_list, mkSEXPREC VECSXP false 0 [] 0 data_other);
      (x_df, mkSEXPREC VECSXP true 0 ["tbl_df"; "tbl"; "data.frame"] 0 data_other);
      (x_rcrd, mkSEXPREC VECSXP true 0 ["vctrs_rcrd"; "vctrs_vctr"] 2 data_other);
      (x_fn, mkSEXPREC CLOSXP false 0 [] 0 data_other);
      (x_int, mkSEXPREC INTSXP false 0 [] 3 (data_int [Some 1; Some 2; Some 3]));
      (x_posixlt, mkSEXPREC VECSXP true 0 ["POSIXlt"; "POSIXt"] 9 data_other);
      (x_true, mkSEXPREC LGLSXP false 0 [] 1 (data_int [Some 1]));
      (x_false, mkSEXPREC LGLSXP false 0 [] 1 (data_int [Some 0]));
      (x_custom_list, mkSEXPREC VECSXP true 0 ["my_class"] 1 data_other);
      (x_date, mkSEXPREC REALSXP true 0 ["Date"] 1 data_other) ].

Definition demo : state := mkState demo_heap [] [] ∅ (mkRcomplex 0 0).

(** Proxy stubs: one that returns its argument, one that always returns
    [p], one that raises. *)
Definition proxy_self : SEXP → extern := λ x st, (inr x, st).
Definition proxy_to (p : SEXP) : SEXP → extern := λ _ st, (inr p, st).
Definition proxy_raise : SEXP → extern := λ _ st, (inl "no proxy method", st).

(** Host stubs for the initialiser: [Rf_install] allocates a symbol,
    [Rf_findVar] finds the null value. *)
Definition stub_install : string → extern := λ _ st,
  let x := fresh (dom (R_heap st)) in
  (inr x, set_heap (insert x (mkSEXPREC SYMSXP false 0 [] 0 data_other)) st).
Definition stub_findVar : SEXP → SEXP → extern := λ _ _ st, (inr R_NilValue, st).

(** The state [vctrs_init_types] leaves when run on [demo], and a sequence
    of later operations. *)
Definition demo_ready : state :=
  match (vctrs_init_types stub_install stub_findVar R_NilValue demo).2 with
  | Normal _ st => st
  | _ => demo
  end.

Definition demo_ops : list op :=
  [ op_vec_typeof x_df;
    op_vec_is_vector x_factor;
    op_gc [x_lgl; 15; 16; 20; 23]%positive;
    op_vctrs_is_vector x_factor x_true;
    op_vctrs_typeof x_rcrd x_false;
    op_vctrs_stop_unsupported_type vctrs_type_scalar "vec_size";
    op_vec_is_vector x_fn ].

(** ** Further vocabulary *)

(** The representation tags the resolver has a case for. *)
Definition resolved_tags : list SEXPTYPE :=
  [ NILSXP; LGLSXP; INTSXP; REALSXP; CPLXSXP; STRSXP; RAWSXP; VECSXP ].

(** The length-one logical vector [Rf_ScalarLogical] builds in this model. *)
Definition scalar_logical (v : Z) : SEXPREC :=
  mkSEXPREC LGLSXP false 0 [] 1 (data_int [Some v]).

(** The text [vctrs_stop_unsupported_type] hands to [Rf_errorcall]. *)
Definition unsupported_message (type : vctrs_type) (fn : string) : string :=
  "Unsupported vctrs type `" +:+ vec_type_as_str type +:+ "` in `" +:+ fn +:+ "`".

(** The nine pool variables in the order [vctrs_init_types] sets them up,
    each with the object it ends up referring to. *)
Definition pool_layout : list (string * SEXPREC) :=
  [ ("vctrs_shared_empty_lgl", constant LGLSXP 0 (data_int []));
    ("vctrs_shared_empty_int", constant INTSXP 0 (data_int []));
    ("vctrs_shared_empty_dbl", constant REALSXP 0 data_other);
    ("vctrs_shared_empty_cpl", constant CPLXSXP 0 data_other);
    ("vctrs_shared_empty_chr", constant STRSXP 0 (data_str []));
    ("vctrs_shared_empty_raw", constant RAWSXP 0 data_other);
    ("vctrs_shared_empty_list", constant VECSXP 0 data_other);
    ("vctrs_shared_true", constant LGLSXP 1 (data_int [Some 1%Z]));
    ("vctrs_shared_false", constant LGLSXP 1 (data_int [Some 0%Z])) ].

(** The kind each pool variable stands for. *)
Definition pool_kinds : list (string * vctrs_type) :=
  [ ("vctrs_shared_empty_lgl", vctrs_type_logical);
    ("vctrs_shared_empty_int", vctrs_type_integer);
    ("vctrs_shared_empty_dbl", vctrs_type_double);
    ("vctrs_shared_empty_cpl", vctrs_type_complex);
    ("vctrs_shared_empty_chr", vctrs_type_character);
    ("vctrs_shared_empty_raw", vctrs_type_raw);
    ("vctrs_shared_empty_list", vctrs_type_list);
    ("vctrs_shared_true", vctrs_type_logical);
    ("vctrs_shared_false", vctrs_type_logical) ].

(** Setting up the variables of [l] one after the other, at the addresses
    [addrs]. *)
Fixpoint add_all (l : list (string * SEXPREC)) (addrs : list SEXP) (st : state) : state :=
  match l, addrs with
  | (var, o) :: l', a :: addrs' => add_all l' addrs' (add_shared var a o st)
  | _, _ => st
  end.

(** Each address is unused at the moment its variable is set up. *)
Fixpoint fresh_seq (l : list (string * SEXPREC)) (addrs : list SEXP) (st : state) : Prop :=
  match l, addrs with
  | (var, o) :: l', a :: addrs' =>
      R_heap st !! a = None ∧ fresh_seq l' addrs' (add_shared var a o st)
  | _, _ => True
  end.

(** The state when the initialiser is done with its two look-ups. *)
Definition after_lookups (fn : SEXP) (st2 : state) : state :=
  set_globals (insert "fns_vec_is_vector_dispatch" fn) st2.

(** The state the initialiser leaves when its allocations land at [addrs]. *)
Definition initialised (addrs : list SEXP) (fn : SEXP) (st2 : state) : state :=
  set_na_cpl (λ _, mkRcomplex NA_REAL NA_REAL)
    (add_all pool_layout addrs (after_lookups fn st2)).

(** The host's missing logical, [NA_LOGICAL]: the smallest [int]. *)
Definition NA_LOGICAL : Z := (- 2 ^ 31)%Z.

Definition x_na : SEXP := 14%positive.

(** [demo] with a logical vector holding [NA]. *)
Definition demo_na : state :=
  set_heap (insert x_na (scalar_logical NA_LOGICAL)) demo.

(** Host stubs that raise. *)
Definition install_raise : string → extern := λ _ st, (inl "cannot allocate symbol", st).
Definition findVar_raise : SEXP → SEXP → extern := λ _ _ st, (inl "invalid environment", st).

(** ** Type resolver: properties *)

Lemma Rf_inherits_OBJECT st x name :
  Rf_inherits st x name = true → OBJECT st x = true.
Proof. unfold Rf_inherits. by intros [? _]%andb_prop. Qed.

Lemma is_data_frame_OBJECT st x : is_data_frame st x = true → OBJECT st x = true.
Proof. apply Rf_inherits_OBJECT. Qed.

Lemma is_record_OBJECT st x : is_record st x = true → OBJECT st x = true.
Proof. unfold is_record. intros [H|H]%orb_prop; by eapply Rf_inherits_OBJECT. Qed.

(** The primitive scalar-array representations are exactly the six array
    tags. *)
Lemma primitive_kind_tags t :
  is_Some (primitive_kind t) ↔ t ∈ [LGLSXP; INTSXP; REALSXP; CPLXSXP; STRSXP; RAWSXP].
Proof.
  split.
  - intros [k Hk]. destruct t; simplify_eq/=; set_solver.
  - intros Ht. repeat (apply elem_of_cons in Ht as [->|Ht]; [by eexists|]).
    by apply elem_of_nil in Ht.
Qed.

(** C1.  A primitive scalar array that carries the object marker resolves
    to [s3] when dispatch is on, and to its underlying primitive kind when
    dispatch is off. *)
Theorem classed_primitive_resolves st x k :
  primitive_kind (TYPEOF st x) = Some k →
  OBJECT st x = true →
  vec_typeof_impl st x true = vctrs_type_s3 ∧ vec_typeof_impl st x false = k.
Proof.
  unfold vec_typeof_impl. intros Hk ->.
  destruct (TYPEOF st x); simplify_eq/=; done.
Qed.

Lemma classed_primitive_resolves_witness :
  vec_typeof_impl demo x_factor true = vctrs_type_s3 ∧
  vec_typeof_impl demo x_factor false = vctrs_type_integer.
Proof. apply (classed_primitive_resolves demo x_factor); reflexivity. Defined.

(** C7.  A primitive scalar array without the object marker resolves to
    its primitive kind whatever the dispatch flag. *)
Theorem bare_primitive_resolves st x k :
  primitive_kind (TYPEOF st x) = Some k →
  OBJECT st x = false →
  vec_typeof_impl st x true = vec_typeof_impl st x false ∧
  vec_typeof_impl st x true = k ∧ vec_typeof_impl st x false = k.
Proof.
  unfold vec_typeof_impl. intros Hk ->.
  destruct (TYPEOF st x); simplify_eq/=; done.
Qed.

Lemma bare_primitive_resolves_witness :
  vec_typeof_impl demo x_lgl true = vec_typeof_impl demo x_lgl false ∧
  vec_typeof_impl demo x_lgl true = vctrs_type_logical ∧
  vec_typeof_impl demo x_lgl false = vctrs_type_logical.
Proof. apply (bare_primitive_resolves demo x_lgl); reflexivity. Defined.

(** C2.  A generic container resolves to [list] without the object marker,
    to [dataframe] when it inherits from the data frame class (whatever the
    dispatch flag), and otherwise to [s3] with dispatch and to [scalar]
    without. *)
Theorem container_resolves st x :
  TYPEOF st x = VECSXP →
  (OBJECT st x = false → ∀ dispatch, vec_typeof_impl st x dispatch = vctrs_type_list) ∧
  (OBJECT st x = true → is_data_frame st x = true →
     ∀ dispatch, vec_typeof_impl st x dispatch = vctrs_type_dataframe) ∧
  (OBJECT st x = true → is_data_frame st x = false →
     vec_typeof_impl st x true = vctrs_type_s3 ∧
     vec_typeof_impl st x false = vctrs_type_scalar).
Proof.
  unfold vec_typeof_impl. intros ->.
  split_and!; [intros -> | intros -> -> | intros -> ->]; done.
Qed.

Lemma container_resolves_witness :
  (∀ dispatch, vec_typeof_impl demo x_list dispatch = vctrs_type_list) ∧
  (∀ dispatch, vec_typeof_impl demo x_df dispatch = vctrs_type_dataframe) ∧
  vec_typeof_impl demo x_custom_list true = vctrs_type_s3 ∧
  vec_typeof_impl demo x_custom_list false = vctrs_type_scalar.
Proof.
  split_and!.
  - apply (container_resolves demo x_list); reflexivity.
  - apply (container_resolves demo x_df); reflexivity.
  - apply (container_resolves demo x_custom_list); reflexivity.
  - apply (container_resolves demo x_custom_list); reflexivity.
Defined.

(** C10.  A generic container tagged as a record ([vctrs_rcrd] or
    [POSIXlt]) and not as a data frame resolves to [s3] with dispatch and
    to [scalar] without, never to [dataframe]. *)
Theorem record_resolves st x :
  TYPEOF st x = VECSXP →
  is_record st x = true →
  is_data_frame st x = false →
  vec_typeof_impl st x true = vctrs_type_s3 ∧
  vec_typeof_impl st x false = vctrs_type_scalar ∧
  ∀ dispatch, vec_typeof_impl st x dispatch ≠ vctrs_type_dataframe.
Proof.
  intros Hty Hrec%is_record_OBJECT Hdf.
  unfold vec_typeof_impl. rewrite Hty, Hrec, Hdf. simpl.
  split_and!; [done..|]. by intros [].
Qed.

Lemma record_resolves_witness :
  (vec_typeof_impl demo x_rcrd true = vctrs_type_s3 ∧
   vec_typeof_impl demo x_rcrd false = vctrs_type_scalar ∧
   ∀ dispatch, vec_typeof_impl demo x_rcrd dispatch ≠ vctrs_type_dataframe) ∧
  (vec_typeof_impl demo x_posixlt true = vctrs_type_s3 ∧
   vec_typeof_impl demo x_posixlt false = vctrs_type_scalar ∧
   ∀ dispatch, vec_typeof_impl demo x_posixlt dispatch ≠ vctrs_type_dataframe).
Proof.
  split.
  - apply (record_resolves demo x_rcrd); reflexivity.
  - apply (record_resolves demo x_posixlt); reflexivity.
Defined.

(** ** Kind taxonomy: properties *)

Lemma all_vctrs_types_complete k : k ∈ all_vctrs_types.
Proof. destruct k; unfold all_vctrs_types; set_solver. Qed.

#[global] Instance vec_type_as_str_inj : Inj (=) (=) vec_type_as_str.
Proof. intros [] [] ?; simplify_eq/=; done. Qed.

(** C8.  [vec_type_as_str] gives every kind a non-empty lowercase name;
    the names of the eleven kinds are [null], [logical], [integer],
    [double], [complex], [character], [raw], [list], [dataframe], [s3]
    and [scalar], and no two kinds share one. *)
Theorem vec_type_as_str_names :
  (∀ k, vec_type_as_str k ≠ "" ∧ to_lower (vec_type_as_str k) = vec_type_as_str k) ∧
  (∀ k, k ∈ all_vctrs_types) ∧
  NoDup all_vctrs_types ∧
  vec_type_as_str <$> all_vctrs_types = kind_names ∧
  NoDup kind_names ∧
  (∀ k1 k2, vec_type_as_str k1 = vec_type_as_str k2 → k1 = k2).
Proof.
  split_and!.
  - by intros [].
  - apply all_vctrs_types_complete.
  - by apply (bool_decide_unpack (NoDup all_vctrs_types)).
  - reflexivity.
  - by apply (bool_decide_unpack (NoDup kind_names)).
  - apply vec_type_as_str_inj.
Qed.

Lemma vec_type_as_str_names_witness :
  vctrs_type_dataframe = vctrs_type_dataframe ∧ vec_type_as_str vctrs_type_s3 ≠ "".
Proof.
  split.
  - apply (proj2 (proj2 (proj2 (proj2 (proj2 vec_type_as_str_names))))
             vctrs_type_dataframe vctrs_type_dataframe); reflexivity.
  - apply (proj1 vec_type_as_str_names vctrs_type_s3).
Defined.

(** ** Reasoning about runs *)

Lemma run_id {A} (r : list event * outcome A) : (let (tr, o) := r in ([] ++ tr, o)) = r.
Proof. by destruct r. Qed.

Lemma bind_ret {A B} (a : A) (f : A → M B) st : (mret a ≫= f) st = f a st.
Proof. unfold mbind, M_bind, mret, M_ret. apply run_id. Qed.

Lemma bind_get_state {B} (f : state → M B) st : (get_state ≫= f) st = f st st.
Proof. unfold mbind, M_bind, get_state. apply run_id. Qed.

Lemma bind_modify {B} (g : state → state) (f : unit → M B) st :
  (modify g ≫= f) st = f tt (g st).
Proof. unfold mbind, M_bind, modify. apply run_id. Qed.

Lemma bind_log {B} e (f : unit → M B) st :
  (log e ≫= f) st = let (tr, o) := f tt st in (e :: tr, o).
Proof. reflexivity. Qed.

Lemma bind_call {B} (g : extern) (f : SEXP → M B) st :
  (call g ≫= f) st =
  match g st with
  | (inr v, st') => f v st'
  | (inl msg, st') => ([], Rf_error msg st')
  end.
Proof.
  unfold mbind, M_bind, call. destruct (g st) as [[msg|v] st']; [done|].
  apply run_id.
Qed.

Lemma bind_assoc {A B C} (m : M A) (f : A → M B) (g : B → M C) st :
  ((m ≫= f) ≫= g) st = (m ≫= λ a, f a ≫= g) st.
Proof.
  unfold mbind, M_bind. destruct (m st) as [tr [a st'| | |]]; try done.
  destruct (f a st') as [tr' [b st''| | |]]; try done.
  destruct (g b st'') as [tr'' o]. by rewrite (assoc_L (++)).
Qed.

Lemma set_ppstack_pop p st : set_ppstack (drop 1) (set_ppstack (cons p) st) = st.
Proof. by destruct st. Qed.

Lemma PROTECT_UNPROTECT {B} p (b : B) st :
  (UNPROTECT 1 ≫= λ _, mret b) (set_ppstack (cons p) st) = ([], Normal b st).
Proof.
  unfold UNPROTECT. rewrite bind_assoc, bind_get_state. simpl.
  rewrite bind_modify, set_ppstack_pop. done.
Qed.

(** Pushing on the protect stack does not change what the resolver sees. *)
Lemma vec_typeof_impl_ppstack f st x dispatch :
  vec_typeof_impl (set_ppstack f st) x dispatch = vec_typeof_impl st x dispatch.
Proof. reflexivity. Qed.

(** With dispatch off the resolver never answers [s3]. *)
Lemma vec_typeof_impl_no_dispatch st x : vec_typeof_impl st x false ≠ vctrs_type_s3.
Proof.
  unfold vec_typeof_impl.
  destruct (TYPEOF st x); rewrite ?andb_false_r; try done.
  by repeat case_match.
Qed.

Section predicate.

Variable vec_proxy : SEXP → extern.

(** Any kind but [s3] is decided in one activation, without the proxy. *)
Lemma vec_is_vector_rec_direct fuel st x dispatch :
  vec_typeof_impl st x dispatch ≠ vctrs_type_s3 →
  vec_is_vector_rec vec_proxy (S fuel) x dispatch st =
    ([], Normal (is_vector_kind (vec_typeof_impl st x dispatch)) st).
Proof.
  intros Hk. simpl. rewrite bind_get_state.
  by destruct (vec_typeof_impl st x dispatch).
Qed.

(** The [s3] kind is decided in two activations, with one proxy call. *)
Lemma vec_is_vector_rec_s3 fuel st x dispatch :
  vec_typeof_impl st x dispatch = vctrs_type_s3 →
  vec_is_vector_rec vec_proxy (S (S fuel)) x dispatch st =
    match vec_proxy x st with
    | (inr p, st') =>
        ([ProxyCall x], Normal (is_vector_kind (vec_typeof_impl st' p false)) st')
    | (inl msg, st') => ([ProxyCall x], Rf_error msg st')
    end.
Proof.
  intros Hk.
  change (vec_is_vector_rec vec_proxy (S (S fuel)) x dispatch st) with
    ((st ← get_state;
      match vec_typeof_impl st x dispatch with
      | vctrs_type_logical | vctrs_type_integer | vctrs_type_double
      | vctrs_type_complex | vctrs_type_character | vctrs_type_raw
      | vctrs_type_list | vctrs_type_dataframe => mret true
      | vctrs_type_s3 =>
          proxy ← (log (ProxyCall x);; p ← call (vec_proxy x); PROTECT p);
          out ← vec_is_vector_rec vec_proxy (S fuel) proxy false;
          UNPROTECT 1;; mret out
      | _ => mret false
      end) st).
  rewrite bind_get_state, Hk, bind_assoc, bind_log, bind_assoc, bind_call.
  destruct (vec_proxy x st) as [[msg|p] st']; [done|].
  unfold PROTECT. rewrite bind_assoc, bind_modify, bind_ret.
  unfold mbind at 1, M_bind at 1.
  rewrite vec_is_vector_rec_direct by apply vec_typeof_impl_no_dispatch.
  rewrite PROTECT_UNPROTECT. done.
Qed.

End predicate.

(** ** Vector predicate: properties *)

Lemma s3_not_vector_kind : vctrs_type_s3 ∉ vector_kinds.
Proof. by apply (bool_decide_unpack (vctrs_type_s3 ∉ vector_kinds)). Qed.

Section predicate_properties.

Variable vec_proxy : SEXP → extern.

(** C3.  When the kind under dispatch is one of the eight vector kinds,
    [vec_is_vector] answers [true]; when it is [null] or [scalar], it
    answers [false]; in both cases no call to the proxy protocol is made
    (the trace is empty) and the state is left as it was. *)
Theorem vec_is_vector_without_proxy fuel st x :
  (vec_typeof_impl st x true ∈ vector_kinds →
     vec_is_vector vec_proxy (S fuel) x st = ([], Normal true st)) ∧
  (vec_typeof_impl st x true ∈ [vctrs_type_null; vctrs_type_scalar] →
     vec_is_vector vec_proxy (S fuel) x st = ([], Normal false st)).
Proof.
  unfold vec_is_vector. split; intros Hk.
  - rewrite vec_is_vector_rec_direct.
    + unfold is_vector_kind. by rewrite bool_decide_eq_true_2.
    + intros Hs3. rewrite Hs3 in Hk. by apply s3_not_vector_kind in Hk.
  - rewrite vec_is_vector_rec_direct.
    + apply list_elem_of_In in Hk as [<-|[<-|[]]]; done.
    + intros Hs3. rewrite Hs3 in Hk.
      apply list_elem_of_In in Hk as [?|[?|[]]]; done.
Qed.

(** C4.  When the kind under dispatch is [s3], [vec_is_vector] calls the
    proxy protocol exactly once, on the value itself, and its answer is
    the answer of [vec_is_vector_rec] on the proxy with dispatch off; a
    proxy that raises ends the call with that error. *)
Theorem vec_is_vector_through_proxy fuel st x :
  vec_typeof_impl st x true = vctrs_type_s3 →
  (∀ p st', vec_proxy x st = (inr p, st') →
     ∃ b, vec_is_vector_rec vec_proxy (S fuel) p false st' = ([], Normal b st') ∧
          vec_is_vector vec_proxy (S (S fuel)) x st = ([ProxyCall x], Normal b st')) ∧
  (∀ msg st', vec_proxy x st = (inl msg, st') →
     vec_is_vector vec_proxy (S (S fuel)) x st = ([ProxyCall x], Rf_error msg st')).
Proof.
  intros Hk. unfold vec_is_vector. rewrite (vec_is_vector_rec_s3 _ _ _ _ _ Hk).
  split.
  - intros p st' ->. eexists. split; [|reflexivity].
    apply vec_is_vector_rec_direct, vec_typeof_impl_no_dispatch.
  - by intros msg st' ->.
Qed.

(** C5.  With dispatch off the resolver never answers [s3]; hence the
    recursive activation is decided on the spot, [vec_is_vector_rec]
    returns within two activations whatever the proxy does, and a call
    makes at most one call to the proxy protocol. *)
Theorem vec_is_vector_rec_depth fuel st x dispatch :
  vec_typeof_impl st x false ≠ vctrs_type_s3 ∧
  vec_is_vector_rec vec_proxy (S fuel) x false st =
    ([], Normal (is_vector_kind (vec_typeof_impl st x false)) st) ∧
  (vec_is_vector_rec vec_proxy (S (S fuel)) x dispatch st).2 ≠ OutOfFuel ∧
  vec_is_vector_rec vec_proxy (S (S fuel)) x dispatch st =
    vec_is_vector_rec vec_proxy 2 x dispatch st ∧
  (proxy_calls (trace_of (vec_is_vector_rec vec_proxy (S (S fuel)) x dispatch st)) ≤ 1)%nat.
Proof.
  split; [apply vec_typeof_impl_no_dispatch|].
  split; [apply vec_is_vector_rec_direct, vec_typeof_impl_no_dispatch|].
  destruct (decide (vec_typeof_impl st x dispatch = vctrs_type_s3)) as [Hk|Hk].
  - rewrite !(vec_is_vector_rec_s3 _ _ _ _ _ Hk).
    destruct (vec_proxy x st) as [[msg|p] st']; simpl; by auto.
  - rewrite !(vec_is_vector_rec_direct _ _ _ _ _ Hk). simpl. by auto.
Qed.

End predicate_properties.

Lemma vec_is_vector_without_proxy_witness :
  vec_is_vector proxy_raise 1 x_lgl demo = ([], Normal true demo) ∧
  vec_is_vector proxy_raise 1 x_df demo = ([], Normal true demo) ∧
  vec_is_vector proxy_raise 1 R_NilValue demo = ([], Normal false demo) ∧
  vec_is_vector proxy_raise 1 x_fn demo = ([], Normal false demo).
Proof.
  split_and!.
  - apply (vec_is_vector_without_proxy proxy_raise 0 demo x_lgl).
    apply list_elem_of_In; vm_compute; tauto.
  - apply (vec_is_vector_without_proxy proxy_raise 0 demo x_df).
    apply list_elem_of_In; vm_compute; tauto.
  - apply (vec_is_vector_without_proxy proxy_raise 0 demo R_NilValue).
    apply list_elem_of_In; vm_compute; tauto.
  - apply (vec_is_vector_without_proxy proxy_raise 0 demo x_fn).
    apply list_elem_of_In; vm_compute; tauto.
Defined.

(** The stub proxy of the specification: an integer array, then a function. *)
Lemma vec_is_vector_through_proxy_witness :
  (∃ b, vec_is_vector_rec (proxy_to x_int) 1 x_int false demo = ([], Normal b demo) ∧
        vec_is_vector (proxy_to x_int) 2 x_factor demo = ([ProxyCall x_factor], Normal b demo)) ∧
  (∃ b, vec_is_vector_rec (proxy_to x_fn) 1 x_fn false demo = ([], Normal b demo) ∧
        vec_is_vector (proxy_to x_fn) 2 x_factor demo = ([ProxyCall x_factor], Normal b demo)) ∧
  vec_is_vector proxy_raise 2 x_factor demo =
    ([ProxyCall x_factor], Rf_error "no proxy method" demo).
Proof.
  split_and!.
  - apply (vec_is_vector_through_proxy (proxy_to x_int) 0 demo x_factor); reflexivity.
  - apply (vec_is_vector_through_proxy (proxy_to x_fn) 0 demo x_factor); reflexivity.
  - apply (vec_is_vector_through_proxy proxy_raise 0 demo x_factor); reflexivity.
Defined.

Example stub_proxy_integer_then_function :
  vec_is_vector (proxy_to x_int) 2 x_factor demo = ([ProxyCall x_factor], Normal true demo) ∧
  vec_is_vector (proxy_to x_fn) 2 x_factor demo = ([ProxyCall x_factor], Normal false demo).
Proof. split; reflexivity. Qed.

(** ** Constant pool: the initialiser *)

Lemma wp_bind {A B} (m : M A) (f : A → M B) Q st :
  wp m (λ a st', wp (f a) Q st') st → wp (m ≫= f) Q st.
Proof.
  unfold wp, mbind, M_bind.
  destruct (m st) as [[|e tr] [a st'| | |]]; try done.
  by destruct (f a st') as [tr' o].
Qed.

Lemma wp_ret {A} (a : A) (Q : A → state → Prop) st : Q a st → wp (mret a) Q st.
Proof. done. Qed.

Lemma wp_modify g (Q : unit → state → Prop) st : Q tt (g st) → wp (modify g) Q st.
Proof. done. Qed.

Lemma wp_get_state (Q : state → state → Prop) st : Q st st → wp get_state Q st.
Proof. done. Qed.

Lemma wp_call (g : extern) (Q : SEXP → state → Prop) st v st' :
  g st = (inr v, st') → Q v st' → wp (call g) Q st.
Proof. unfold wp, call. by intros ->. Qed.

Lemma wp_with_var {A} var (f : SEXP → M A) Q st x :
  globals st !! var = Some x → wp (f x) Q st → wp (with_var var f) Q st.
Proof.
  intros Hvar Hf. unfold with_var. apply wp_bind, wp_get_state. by rewrite Hvar.
Qed.

Lemma wp_Rf_allocVector ty n (Q : SEXP → state → Prop) st :
  (0 ≤ n)%Z →
  (∀ x, R_heap st !! x = None → Q x (set_heap (insert x (new_vector ty n)) st)) →
  wp (Rf_allocVector ty n) Q st.
Proof.
  intros Hn HQ. unfold Rf_allocVector. case_decide; [lia|].
  apply wp_bind, wp_get_state, wp_bind, wp_modify, wp_ret, HQ.
  apply not_elem_of_dom, is_fresh.
Qed.

Lemma wp_update_obj x f (Q : unit → state → Prop) st o :
  R_heap st !! x = Some o →
  Q tt (set_heap (insert x (f o)) st) →
  wp (update_obj x f) Q st.
Proof.
  intros Hx HQ. unfold update_obj. apply wp_bind, wp_get_state.
  rewrite Hx. by apply wp_modify.
Qed.

Lemma wp_LOGICAL_set x i v (Q : unit → state → Prop) st o cells :
  R_heap st !! x = Some o →
  sxp_type o = LGLSXP →
  sxp_data o = data_int cells →
  (i < length cells)%nat →
  Q tt (set_heap (insert x (set_cell i v o)) st) →
  wp (LOGICAL_set x i v) Q st.
Proof.
  intros Hx Hty Hd Hi HQ. unfold LOGICAL_set. apply wp_bind, wp_get_state.
  rewrite Hx. rewrite decide_True by done. rewrite Hd.
  rewrite decide_True by done. by eapply wp_update_obj.
Qed.

(** Allocating, registering and marking one shared vector. *)
Lemma wp_shared_block var ty n (k : M unit) Q st :
  (0 ≤ n)%Z →
  (∀ a, R_heap st !! a = None →
        wp k Q (add_shared var a (set_named NAMEDMAX (new_vector ty n)) st)) →
  wp (x ← Rf_allocVector ty n; assign var x;;
      with_var var R_PreserveObject;;
      with_var var MARK_NOT_MUTABLE;; k) Q st.
Proof.
  intros Hn Hk. apply wp_bind, wp_Rf_allocVector; [done|]. intros a Ha.
  apply wp_bind, wp_modify.
  apply wp_bind. eapply wp_with_var; [apply lookup_insert_eq|]. apply wp_modify.
  apply wp_bind. eapply wp_with_var; [apply lookup_insert_eq|].
  eapply wp_update_obj; [apply lookup_insert_eq|].
  specialize (Hk a Ha). unfold add_shared in Hk.
  unfold set_heap, set_precious, set_globals; simpl.
  by rewrite insert_insert_eq.
Qed.

(** Storing into cell 0 of the logical vector just set up. *)
Lemma wp_shared_store var a o cells v (k : M unit) Q st :
  sxp_type o = LGLSXP →
  sxp_data o = data_int cells →
  (0 < length cells)%nat →
  wp k Q (add_shared var a (set_cell 0 v o) st) →
  wp (with_var var (λ x, LOGICAL_set x 0 v);; k) Q (add_shared var a o st).
Proof.
  intros Hty Hd Hlen Hk. apply wp_bind.
  eapply wp_with_var; [apply lookup_insert_eq|].
  eapply wp_LOGICAL_set; [apply lookup_insert_eq|done..|].
  unfold add_shared in *. unfold set_heap; simpl. by rewrite insert_insert_eq.
Qed.

Lemma shared_at_add_shared var a o st : shared_at (add_shared var a o st) var a o.
Proof.
  split_and!; simpl.
  - apply lookup_insert_eq.
  - apply lookup_insert_eq.
  - apply list_elem_of_here.
Qed.

Lemma shared_add_shared var a o st : shared (add_shared var a o st) var o.
Proof. exists a. apply shared_at_add_shared. Qed.

(** Setting up another variable at an unused address leaves the earlier
    ones as they are. *)
Lemma shared_add_shared_ne var' a' o' var o st :
  var ≠ var' →
  R_heap st !! a' = None →
  shared st var o →
  shared (add_shared var' a' o' st) var o.
Proof.
  intros Hvar Ha' (a & Hg & Hh & Hp). exists a. split_and!; simpl.
  - by rewrite lookup_insert_ne.
  - rewrite lookup_insert_ne; [done|]. by intros ->; simplify_eq.
  - by apply list_elem_of_further.
Qed.

Lemma shared_set_na_cpl f var o st : shared st var o → shared (set_na_cpl f st) var o.
Proof. done. Qed.

Lemma constant_not_mutable ty n d : MAYBE_SHARED (constant ty n d) = true.
Proof. reflexivity. Qed.

Section initialiser.

Variable Rf_install : string → extern.
Variable Rf_findVar : SEXP → SEXP → extern.

(** Once the two look-ups made first have returned, the initialiser runs to
    its end and leaves the pool ready. *)
Lemma vctrs_init_types_ready ns st sym st1 fn st2 :
  Rf_install "vec_is_vector" st = (inr sym, st1) →
  Rf_findVar sym ns (set_globals (insert "syms_vec_is_vector_dispatch" sym) st1) = (inr fn, st2) →
  wp (vctrs_init_types Rf_install Rf_findVar ns) (λ _ st', pool_ready st') st.
Proof.
  intros Hinstall HfindVar. unfold vctrs_init_types.
  apply wp_bind. eapply wp_call; [done|].
  apply wp_bind, wp_modify.
  apply wp_bind. eapply wp_with_var; [apply lookup_insert_eq|].
  eapply wp_call; [done|].
  apply wp_bind, wp_modify.
  do 7 (apply wp_shared_block; [done|]; intros ? ?).
  apply wp_shared_block; [done|]; intros ? ?.
  eapply wp_shared_store; [done..|simpl; lia|].
  apply wp_shared_block; [done|]; intros ? ?.
  eapply wp_shared_store; [done..|simpl; lia|].
  apply wp_bind, wp_modify, wp_modify.
  unfold pool_ready. simpl.
  split_and!; try done;
    repeat first
      [ apply shared_set_na_cpl
      | apply shared_add_shared
      | apply shared_add_shared_ne; [done|done|] ].
Qed.

End initialiser.

(** ** Constant pool: preservation *)

Lemma pool_entry_shared_at st var a o :
  shared_at st var a o ↔ pool_entry st var = Some (a, Some o, true).
Proof.
  unfold shared_at, pool_entry. split.
  - intros (Hg & Hh & Hp). rewrite Hg. simpl. by rewrite Hh, bool_decide_eq_true_2.
  - destruct (globals st !! var) as [a'|]; simpl; [|done].
    intros [= -> Ho Hp]. by apply bool_decide_eq_true in Hp.
Qed.

Lemma pool_unchanged_refl st : pool_unchanged st st.
Proof. done. Qed.

Lemma pool_unchanged_trans st st' st'' :
  pool_unchanged st st' → pool_unchanged st' st'' → pool_unchanged st st''.
Proof.
  intros [H1 Hna1] [H2 Hna2]. split; [|congruence].
  intros var Hvar. by rewrite H2, H1.
Qed.

Lemma pool_live_unchanged st st' : pool_live st → pool_unchanged st st' → pool_live st'.
Proof.
  intros Hlive [Hsame _] var Hvar. destruct (Hlive var Hvar) as (a & o & Hat & Hm).
  exists a, o. split; [|done]. apply pool_entry_shared_at. rewrite Hsame by done.
  by apply pool_entry_shared_at.
Qed.

Lemma shared_unchanged st st' var o :
  var ∈ shared_vars → pool_unchanged st st' → shared st var o → shared st' var o.
Proof.
  intros Hvar [Hsame _] [a Hat]. exists a.
  apply pool_entry_shared_at. rewrite Hsame by done. by apply pool_entry_shared_at.
Qed.

Lemma pool_ready_live st : pool_ready st → pool_live st.
Proof.
  intros (H1 & H2 & H3 & H4 & H5 & H6 & H7 & H8 & H9 & _) var Hvar.
  apply list_elem_of_In in Hvar. simpl in Hvar.
  destruct Hvar as [<-|[<-|[<-|[<-|[<-|[<-|[<-|[<-|[<-|[]]]]]]]]]];
    match goal with H : shared _ ?v _ |- ∃ _ _, shared_at _ ?v _ _ ∧ _ =>
      destruct H as [a Ha]; by eauto end.
Qed.

Lemma pool_ready_unchanged st st' : pool_ready st → pool_unchanged st st' → pool_ready st'.
Proof.
  intros (H1 & H2 & H3 & H4 & H5 & H6 & H7 & H8 & H9 & Hna) Hsame.
  unfold pool_ready.
  split_and!;
    try (eapply shared_unchanged; [|done|done];
         apply list_elem_of_In; simpl; tauto).
  destruct Hsame as [_ ->]. done.
Qed.

Lemma kept_refl st : kept st st.
Proof. done. Qed.

Lemma kept_set_ppstack f st : kept st (set_ppstack f st).
Proof. done. Qed.

Lemma kept_insert_fresh x o st :
  R_heap st !! x = None → kept st (set_heap (insert x o) st).
Proof.
  intros Hx. split_and!; try done. simpl. intros a _ [o' Ha].
  rewrite lookup_insert_ne; [done|]. intros ->. simplify_eq.
Qed.

Lemma kept_pool_unchanged st st' : pool_live st → kept st st' → pool_unchanged st st'.
Proof.
  intros Hlive (Hg & Hp & Hna & Hh). split; [|done].
  intros var Hvar. destruct (Hlive var Hvar) as (a & o & (Hga & Hha & Hpa) & _).
  unfold pool_entry. rewrite Hg, Hga. simpl. rewrite Hp, Hh; eauto.
Qed.

Lemma keeps_of_kept {A} (m : M A) :
  (∀ st st', state_of (m st) = Some st' → kept st st') → keeps_pool m.
Proof. intros Hm st st' Hlive Hst. by apply kept_pool_unchanged, Hm. Qed.

Lemma keeps_of_wp {A} (m : M A) :
  (∀ st, wp m (λ _ st', kept st st') st) → keeps_pool m.
Proof.
  intros Hm. apply keeps_of_kept. intros st st' Hst. specialize (Hm st).
  unfold wp, state_of in *.
  destruct (m st) as [[|e tr] [a st1| | |]]; simplify_eq/=; done.
Qed.

Lemma keeps_bind {A B} (m : M A) (f : A → M B) :
  keeps_pool m → (∀ a, keeps_pool (f a)) → keeps_pool (m ≫= f).
Proof.
  intros Hm Hf st st' Hlive. unfold mbind, M_bind, state_of.
  specialize (Hm st). unfold state_of in Hm.
  destruct (m st) as [tr [a st1|msg st1| |]]; simpl in *; try done.
  - specialize (Hm st1 Hlive eq_refl).
    specialize (Hf a st1 st' (pool_live_unchanged _ _ Hlive Hm)).
    unfold state_of in Hf. destruct (f a st1) as [tr' o]. simpl in *.
    intros Ho. eapply pool_unchanged_trans; eauto.
  - intros [= <-]. by apply Hm.
Qed.

Lemma keeps_ret {A} (a : A) : keeps_pool (mret a).
Proof. apply keeps_of_kept. by intros st st' [= <-]. Qed.

Lemma keeps_get_state : keeps_pool get_state.
Proof. apply keeps_of_kept. by intros st st' [= <-]. Qed.

Lemma keeps_raise {A} msg : keeps_pool (raise (A:=A) msg).
Proof. apply keeps_of_kept. by intros st st' [= <-]. Qed.

Lemma keeps_undefined {A} : keeps_pool (undefined (A:=A)).
Proof. by intros st st' _ ?. Qed.

Lemma keeps_out_of_fuel {A} : keeps_pool (out_of_fuel (A:=A)).
Proof. by intros st st' _ ?. Qed.

Lemma keeps_log e : keeps_pool (log e).
Proof. apply keeps_of_kept. by intros st st' [= <-]. Qed.

(** Code that honours the marks leaves the pool as it found it. *)
Lemma honours_marks_respects_pool f : honours_marks f → respects_pool f.
Proof.
  intros Hf st Hlive. destruct (Hf st) as (Hg & Hna & Hp & Hh). split; [|done].
  intros var Hvar. destruct (Hlive var Hvar) as (a & o & (Hga & Hha & Hpa) & Hm).
  unfold pool_entry. rewrite Hg, Hga by done. simpl.
  rewrite (Hh a o), Hha by done. by rewrite !bool_decide_eq_true_2 by auto.
Qed.

Lemma keeps_call f : respects_pool f → keeps_pool (call f).
Proof.
  intros Hf st st' Hlive. specialize (Hf st Hlive). unfold call, state_of.
  destruct (f st) as [[msg|v] st1]; simpl in *; by intros [= <-].
Qed.

Lemma keeps_PROTECT x : keeps_pool (PROTECT x).
Proof.
  apply keeps_bind; [|intros; apply keeps_ret].
  apply keeps_of_kept. intros st st' [= <-]. apply kept_set_ppstack.
Qed.

Lemma keeps_UNPROTECT n : keeps_pool (UNPROTECT n).
Proof.
  apply keeps_bind; [apply keeps_get_state|]. intros st0.
  case_decide; [|apply keeps_raise].
  apply keeps_of_kept. intros st st' [= <-]. apply kept_set_ppstack.
Qed.

Lemma keeps_LOGICAL_get x i : keeps_pool (LOGICAL_get x i).
Proof.
  apply keeps_bind; [apply keeps_get_state|]. intros st0.
  repeat case_match;
    first [apply keeps_ret | apply keeps_undefined | apply keeps_raise].
Qed.

Lemma keeps_Rf_ScalarLogical v : keeps_pool (Rf_ScalarLogical v).
Proof.
  apply keeps_of_wp. intros st. unfold Rf_ScalarLogical.
  apply wp_bind, wp_Rf_allocVector; [done|]. intros x Hx.
  apply wp_bind. eapply wp_LOGICAL_set; [apply lookup_insert_eq|done..|simpl; lia|].
  apply wp_ret. unfold set_heap; simpl. rewrite insert_insert_eq.
  by apply (kept_insert_fresh x _ st).
Qed.

Lemma keeps_Rf_mkString s : keeps_pool (Rf_mkString s).
Proof.
  apply keeps_of_wp. intros st. unfold Rf_mkString.
  apply wp_bind, wp_Rf_allocVector; [done|]. intros x Hx.
  apply wp_bind. eapply wp_update_obj; [apply lookup_insert_eq|].
  apply wp_ret. unfold set_heap; simpl. rewrite insert_insert_eq.
  by apply (kept_insert_fresh x _ st).
Qed.

(** The reclaimer does not free what is on the precious list. *)
Lemma keeps_R_gc victims : keeps_pool (R_gc victims).
Proof.
  apply keeps_of_kept. intros st st'. unfold R_gc. rewrite bind_get_state.
  intros [= <-]. split_and!; try done. simpl. intros a Ha [o Ho].
  rewrite Ho. apply map_lookup_filter_Some. split; [done|]. simpl. tauto.
Qed.

Lemma keeps_toplevel {A} (m : M A) : keeps_pool m → keeps_pool (toplevel m).
Proof.
  intros Hm st st' Hlive. specialize (Hm st). unfold toplevel, state_of in *.
  destruct (m st) as [tr [a st1|msg st1| |]]; simpl in *; try done.
  - intros [= <-]. by apply Hm.
  - intros [= <-]. by apply (Hm st1).
Qed.

Create HintDb keeps discriminated.

#[global] Hint Resolve keeps_bind keeps_ret keeps_get_state keeps_raise
  keeps_undefined keeps_out_of_fuel keeps_log keeps_call keeps_PROTECT
  keeps_UNPROTECT keeps_LOGICAL_get keeps_Rf_ScalarLogical keeps_Rf_mkString
  keeps_R_gc keeps_toplevel honours_marks_respects_pool : keeps.

Section preservation.

Variable vec_proxy : SEXP → extern.
Hypothesis vec_proxy_honours_marks : ∀ x, honours_marks (vec_proxy x).

Lemma keeps_vec_is_vector_rec fuel x dispatch :
  keeps_pool (vec_is_vector_rec vec_proxy fuel x dispatch).
Proof.
  revert x dispatch. induction fuel as [|fuel IH]; intros x dispatch; simpl.
  - apply keeps_out_of_fuel.
  - apply keeps_bind; [apply keeps_get_state|]. intros st0.
    destruct (vec_typeof_impl st0 x dispatch); auto 10 with keeps.
Qed.

Lemma keeps_run_op fuel o : keeps_pool (run_op vec_proxy fuel o).
Proof.
  pose proof keeps_vec_is_vector_rec.
  destruct o; simpl; unfold vec_is_vector, vctrs_is_vector, vctrs_typeof,
    vctrs_stop_unsupported_type; auto 10 with keeps.
Qed.

Lemma keeps_run_ops fuel ops : keeps_pool (run_ops vec_proxy fuel ops).
Proof.
  induction ops as [|o ops IH]; simpl.
  - apply keeps_ret.
  - apply keeps_bind; [apply keeps_run_op|]. by intros _.
Qed.

End preservation.

Section pool.

Variable vec_proxy : SEXP → extern.
Variable Rf_install : string → extern.
Variable Rf_findVar : SEXP → SEXP → extern.

(** C9.  Once its two look-ups have returned, [vctrs_init_types] runs to
    its end; afterwards each of the seven [vctrs_shared_empty_*] variables
    refers to a zero-length vector of its kind, [vctrs_shared_true] and
    [vctrs_shared_false] refer to length-one logical vectors holding 1 and
    0, both parts of [vctrs_shared_na_cpl] are [NA_REAL], and each of the
    nine vectors is marked not mutable and is on the precious list.  Any
    sequence of later calls to the other entry points of [type.c] and of
    runs of the reclaimer leaves every pool variable with the same
    reference, the same object and the same registration, provided the
    code behind the proxy protocol honours the marks (it assigns no pool
    variable, releases nothing, and leaves marked registered objects
    alone). *)
Theorem vctrs_init_types_pool ns st sym st1 fn st2 :
  Rf_install "vec_is_vector" st = (inr sym, st1) →
  Rf_findVar sym ns (set_globals (insert "syms_vec_is_vector_dispatch" sym) st1) = (inr fn, st2) →
  ∃ st',
    vctrs_init_types Rf_install Rf_findVar ns st = ([], Normal tt st') ∧
    pool_ready st' ∧
    ((∀ x, honours_marks (vec_proxy x)) →
     ∀ fuel ops st'',
       state_of (run_ops vec_proxy fuel ops st') = Some st'' →
       pool_unchanged st' st'' ∧ pool_ready st'').
Proof.
  intros Hinstall HfindVar.
  pose proof (vctrs_init_types_ready _ _ ns st _ _ _ _ Hinstall HfindVar) as Hwp.
  unfold wp in Hwp.
  destruct (vctrs_init_types Rf_install Rf_findVar ns st)
    as [[|e tr] [[] st'| | |]]; try done.
  exists st'. split_and!; [done..|].
  intros Hproxy fuel ops st'' Hrun.
  assert (pool_unchanged st' st'') as Hsame.
  { eapply keeps_run_ops; [done|by apply pool_ready_live|done]. }
  split; [done|]. by eapply pool_ready_unchanged.
Qed.

End pool.

Lemma proxy_self_honours_marks x : honours_marks (proxy_self x).
Proof. by intros st. Qed.

Lemma vctrs_init_types_pool_witness :
  ∃ st',
    vctrs_init_types stub_install stub_findVar R_NilValue demo = ([], Normal tt st') ∧
    pool_ready st' ∧
    ∀ fuel ops st'',
      state_of (run_ops proxy_self fuel ops st') = Some st'' →
      pool_unchanged st' st'' ∧ pool_ready st''.
Proof.
  destruct (vctrs_init_types_pool proxy_self stub_install stub_findVar
              R_NilValue demo _ _ _ _ eq_refl eq_refl)
    as (st' & Hrun & Hready & Hkeep).
  exists st'. split_and!; [done..|].
  apply Hkeep, proxy_self_honours_marks.
Defined.

(** The run of [demo_ops] after initialisation returns: one operation of
    each sort, a reclaimer run aimed at pool objects included. *)
Example demo_ops_run :
  ∃ st'', state_of (run_ops proxy_self 2 demo_ops demo_ready) = Some st'' ∧
          R_heap st'' !! x_lgl = None ∧
          globals st'' !! "vctrs_shared_true" = globals demo_ready !! "vctrs_shared_true" ∧
          (deref st'' <$> globals st'' !! "vctrs_shared_true") =
            Some (constant LGLSXP 1 (data_int [Some 1%Z])).
Proof. eexists. split_and!; by vm_compute. Qed.

(** The initialiser is meant to run once: a second run allocates the pool
    anew and the variables refer to other objects. *)
Example vctrs_init_types_twice :
  ∃ st'',
    (vctrs_init_types stub_install stub_findVar R_NilValue demo_ready).2 = Normal tt st'' ∧
    globals st'' !! "vctrs_shared_true" ≠ globals demo_ready !! "vctrs_shared_true".
Proof. eexists. split; by vm_compute. Qed.

(** ** Type resolver: further properties *)

(** X1.  A representation the resolver has no case for (a function, an
    environment, an external pointer, ...) is [scalar] whatever the
    dispatch flag, the object bit and the class; and the kind is [null]
    exactly for the null representation. *)
Theorem other_representation_resolves st x dispatch :
  (TYPEOF st x ∉ resolved_tags → vec_typeof_impl st x dispatch = vctrs_type_scalar) ∧
  (vec_typeof_impl st x dispatch = vctrs_type_null ↔ TYPEOF st x = NILSXP).
Proof.
  unfold vec_typeof_impl. split.
  - intros Hty. destruct (TYPEOF st x); try done;
      exfalso; apply Hty; unfold resolved_tags; set_solver.
  - destruct (TYPEOF st x); split; try done; by repeat case_match.
Qed.

Lemma other_representation_resolves_witness :
  vec_typeof_impl demo x_fn true = vctrs_type_scalar ∧
  vec_typeof_impl demo R_NilValue false = vctrs_type_null.
Proof.
  split.
  - apply (other_representation_resolves demo x_fn true).
    intros H. apply list_elem_of_In in H. vm_compute in H.
    repeat (destruct H as [H|H]; [discriminate H|]). exact H.
  - apply (other_representation_resolves demo R_NilValue false). reflexivity.
Defined.

Lemma vec_typeof_impl_s3_inv st x dispatch :
  vec_typeof_impl st x dispatch = vctrs_type_s3 →
  dispatch = true ∧ OBJECT st x = true ∧
  (is_Some (primitive_kind (TYPEOF st x)) ∨
   (TYPEOF st x = VECSXP ∧ is_data_frame st x = false)).
Proof.
  unfold vec_typeof_impl.
  destruct (TYPEOF st x) eqn:Hty, (OBJECT st x) eqn:Hobj, dispatch,
    (is_data_frame st x) eqn:Hdf; simpl; try done;
    intros _; split_and!; try done; eauto.
Qed.

(** X2.  The resolver answers [s3] exactly when dispatch is on, the object
    bit is set, and the value is a primitive array or a list that does not
    inherit from the data frame class. *)
Theorem s3_resolves_iff st x dispatch :
  vec_typeof_impl st x dispatch = vctrs_type_s3 ↔
  dispatch = true ∧ OBJECT st x = true ∧
  (is_Some (primitive_kind (TYPEOF st x)) ∨
   (TYPEOF st x = VECSXP ∧ is_data_frame st x = false)).
Proof.
  split; [apply vec_typeof_impl_s3_inv|].
  unfold vec_typeof_impl. intros (-> & -> & [[k Hk]|[-> ->]]); [|done].
  destruct (TYPEOF st x); simplify_eq/=; done.
Qed.

Lemma s3_resolves_iff_witness :
  vec_typeof_impl demo x_custom_list true = vctrs_type_s3 ∧
  (true = true ∧ OBJECT demo x_date = true ∧
   (is_Some (primitive_kind (TYPEOF demo x_date)) ∨
    (TYPEOF demo x_date = VECSXP ∧ is_data_frame demo x_date = false))).
Proof.
  split.
  - apply (s3_resolves_iff demo x_custom_list true).
    split_and!; [reflexivity..|]. right. split; reflexivity.
  - apply (s3_resolves_iff demo x_date true). reflexivity.
Defined.

(** X3.  The resolver answers [dataframe] exactly for a list that inherits
    from the data frame class; an array carrying that class is never a
    [dataframe]. *)
Theorem dataframe_resolves_iff st x dispatch :
  vec_typeof_impl st x dispatch = vctrs_type_dataframe ↔
  TYPEOF st x = VECSXP ∧ is_data_frame st x = true.
Proof.
  unfold vec_typeof_impl. split.
  - destruct (TYPEOF st x); try done; by repeat case_match.
  - intros [-> Hdf]. by rewrite (is_data_frame_OBJECT _ _ Hdf), Hdf.
Qed.

Lemma dataframe_resolves_iff_witness :
  vec_typeof_impl demo x_df false = vctrs_type_dataframe ∧
  (TYPEOF demo x_df = VECSXP ∧ is_data_frame demo x_df = true).
Proof.
  split.
  - apply (dataframe_resolves_iff demo x_df false). split; reflexivity.
  - apply (dataframe_resolves_iff demo x_df true). reflexivity.
Defined.

(** X4.  The dispatch flag changes the answer of the resolver exactly when
    the answer with dispatch is [s3]. *)
Theorem dispatch_matters_iff_s3 st x :
  vec_typeof_impl st x true ≠ vec_typeof_impl st x false ↔
  vec_typeof_impl st x true = vctrs_type_s3.
Proof.
  split.
  - intros Hne. unfold vec_typeof_impl in *.
    destruct (TYPEOF st x); try done;
      destruct (OBJECT st x); simpl in *; try done.
    by destruct (is_data_frame st x).
  - intros Hs3 Heq. rewrite Hs3 in Heq.
    by apply (vec_typeof_impl_no_dispatch st x).
Qed.

Lemma dispatch_matters_iff_s3_witness :
  vec_typeof_impl demo x_factor true ≠ vec_typeof_impl demo x_factor false.
Proof. apply (dispatch_matters_iff_s3 demo x_factor). reflexivity. Defined.

(** X5.  [vec_typeof]: a value with the object bit is never classified as
    a bare primitive kind or as [list], and a value without it is never
    classified as [dataframe] or [s3]. *)
Theorem vec_typeof_object st x :
  (OBJECT st x = true →
     vec_typeof st x ∈
       [vctrs_type_null; vctrs_type_dataframe; vctrs_type_s3; vctrs_type_scalar]) ∧
  (OBJECT st x = false →
     vec_typeof st x ∉ [vctrs_type_dataframe; vctrs_type_s3]).
Proof.
  unfold vec_typeof, vec_typeof_impl, is_data_frame, Rf_inherits.
  split; intros ->; simpl.
  - destruct (TYPEOF st x); try case_match;
      apply list_elem_of_In; simpl; tauto.
  - destruct (TYPEOF st x);
      intros H; apply list_elem_of_In in H; simpl in H;
      by destruct H as [?|[?|[]]].
Qed.

Lemma vec_typeof_object_witness :
  vec_typeof demo x_date ∈
    [vctrs_type_null; vctrs_type_dataframe; vctrs_type_s3; vctrs_type_scalar] ∧
  vec_typeof demo x_list ∉ [vctrs_type_dataframe; vctrs_type_s3].
Proof.
  split.
  - apply (proj1 (vec_typeof_object demo x_date)). reflexivity.
  - apply (proj2 (vec_typeof_object demo x_list)). reflexivity.
Defined.


(** ** Runs of the host primitives *)

Lemma bind_normal {A B} (m : M A) (f : A → M B) st a st' :
  m st = ([], Normal a st') → (m ≫= f) st = f a st'.
Proof. intros Hm. unfold mbind, M_bind. rewrite Hm. apply run_id. Qed.

Lemma Rf_allocVector_run ty n st :
  (0 ≤ n)%Z →
  Rf_allocVector ty n st =
    ([], Normal (fresh (dom (R_heap st)))
           (set_heap (insert (fresh (dom (R_heap st))) (new_vector ty n)) st)).
Proof.
  intros Hn. unfold Rf_allocVector. case_decide; [lia|].
  by rewrite bind_get_state, bind_modify.
Qed.

Lemma set_heap_insert_twice a o o' st :
  set_heap (insert a o') (set_heap (insert a o) st) = set_heap (insert a o') st.
Proof. unfold set_heap; simpl. by rewrite insert_insert_eq. Qed.

Lemma update_obj_run x f st o :
  R_heap st !! x = Some o →
  update_obj x f st = ([], Normal tt (set_heap (insert x (f o)) st)).
Proof. intros Hx. unfold update_obj. by rewrite bind_get_state, Hx. Qed.

Lemma LOGICAL_set_run x i v st o cells :
  R_heap st !! x = Some o →
  sxp_type o = LGLSXP →
  sxp_data o = data_int cells →
  (i < length cells)%nat →
  LOGICAL_set x i v st = ([], Normal tt (set_heap (insert x (set_cell i v o)) st)).
Proof.
  intros Hx Hty Hd Hi. unfold LOGICAL_set.
  rewrite bind_get_state, Hx, decide_True, Hd, decide_True by done.
  by apply update_obj_run.
Qed.

Lemma Rf_ScalarLogical_run v st :
  Rf_ScalarLogical v st =
    ([], Normal (fresh (dom (R_heap st)))
           (set_heap (insert (fresh (dom (R_heap st))) (scalar_logical v)) st)).
Proof.
  unfold Rf_ScalarLogical.
  rewrite (bind_normal _ _ _ _ _ (Rf_allocVector_run LGLSXP 1 st ltac:(done))).
  erewrite bind_normal; [|eapply LOGICAL_set_run;
    [apply lookup_insert_eq|done|done|simpl; lia]].
  by rewrite set_heap_insert_twice.
Qed.

(** Reading a cell of a value that is not a logical vector raises, in the
    state as it is. *)
Lemma LOGICAL_get_raises x i st o :
  R_heap st !! x = Some o →
  sxp_type o ≠ LGLSXP →
  ∃ msg, LOGICAL_get x i st = ([], Rf_error msg st).
Proof.
  intros Ho Hty. unfold LOGICAL_get.
  rewrite bind_get_state, Ho, decide_False by done. by eexists.
Qed.

(** ** Vector predicate: further properties *)

Section predicate_effects.

Variable vec_proxy : SEXP → extern.

Lemma vec_is_vector_rec_S fuel x dispatch st :
  vec_is_vector_rec vec_proxy (S fuel) x dispatch st =
    (st ← get_state;
     match vec_typeof_impl st x dispatch with
     | vctrs_type_logical | vctrs_type_integer | vctrs_type_double
     | vctrs_type_complex | vctrs_type_character | vctrs_type_raw
     | vctrs_type_list | vctrs_type_dataframe => mret true
     | vctrs_type_s3 =>
         proxy ← (log (ProxyCall x);; p ← call (vec_proxy x); PROTECT p);
         out ← vec_is_vector_rec vec_proxy fuel proxy false;
         UNPROTECT 1;; mret out
     | _ => mret false
     end) st.
Proof. reflexivity. Qed.

(** X7.  [vec_is_vector_rec] has no effect of its own: whatever the budget
    and however the run ends, the proxy protocol is called on the argument
    itself or not at all, and the state at the end is the initial state or
    the state the proxy left. *)
Theorem vec_is_vector_rec_effects fuel st x dispatch :
  (trace_of (vec_is_vector_rec vec_proxy fuel x dispatch st) = [] ∨
   trace_of (vec_is_vector_rec vec_proxy fuel x dispatch st) = [ProxyCall x]) ∧
  ∀ st', state_of (vec_is_vector_rec vec_proxy fuel x dispatch st) = Some st' →
         st' = st ∨ st' = (vec_proxy x st).2.
Proof.
  destruct (decide (vec_typeof_impl st x dispatch = vctrs_type_s3)) as [Hk|Hk].
  - destruct fuel as [|[|fuel]].
    + split; [by left|done].
    + rewrite vec_is_vector_rec_S, bind_get_state, Hk.
      rewrite bind_assoc, bind_log, bind_assoc, bind_call.
      destruct (vec_proxy x st) as [[msg|p] st1]; simpl.
      * split; [by right|]. intros st' [= <-]. by right.
      * split; [by right|done].
    + rewrite (vec_is_vector_rec_s3 _ _ _ _ _ Hk).
      destruct (vec_proxy x st) as [[msg|p] st1]; simpl;
        (split; [by right|]); intros st' [= <-]; by right.
  - destruct fuel as [|fuel].
    + split; [by left|done].
    + rewrite (vec_is_vector_rec_direct _ _ _ _ _ Hk).
      split; [by left|]. intros st' [= <-]. by left.
Qed.

(** X8.  When the proxy of an [s3] value is the value itself, unchanged,
    the value is a vector exactly when it is an array: a classed list
    that is not a data frame is not a vector. *)
Theorem vec_is_vector_identity_proxy fuel st x :
  vec_typeof_impl st x true = vctrs_type_s3 →
  vec_proxy x st = (inr x, st) →
  vec_is_vector vec_proxy (S (S fuel)) x st =
    ([ProxyCall x], Normal (bool_decide (TYPEOF st x ≠ VECSXP)) st).
Proof.
  intros Hk Hp. unfold vec_is_vector.
  rewrite (vec_is_vector_rec_s3 _ _ _ _ _ Hk), Hp. do 3 f_equal.
  apply vec_typeof_impl_s3_inv in Hk as (_ & Hobj & Hrepr).
  unfold vec_typeof_impl. rewrite Hobj.
  destruct Hrepr as [[k Hk]|[-> ->]]; [|done].
  destruct (TYPEOF st x); simplify_eq/=; done.
Qed.

(** X10.  [vctrs_is_vector] with a zero flag never calls the proxy: the
    answer is decided by the representation alone, so a classed array
    counts as a vector and a classed list that is not a data frame does
    not. *)
Theorem vctrs_is_vector_no_dispatch fuel st x dispatch :
  LOGICAL_get dispatch 0 st = ([], Normal 0%Z st) →
  vctrs_is_vector vec_proxy (S fuel) x dispatch st =
    ([], Normal (fresh (dom (R_heap st)))
           (set_heap (insert (fresh (dom (R_heap st)))
              (scalar_logical
                 (bool_as_int (is_vector_kind (vec_typeof_impl st x false))))) st)).
Proof.
  intros Hflag. unfold vctrs_is_vector. rewrite (bind_normal _ _ _ _ _ Hflag).
  change (int_as_bool 0) with false.
  rewrite (bind_normal _ _ _ _ _
    (vec_is_vector_rec_direct vec_proxy fuel st x false
       (vec_typeof_impl_no_dispatch st x))).
  apply Rf_ScalarLogical_run.
Qed.

(** X11.  [vctrs_is_vector] reads the flag as a C truth value: any non-zero
    cell, the missing logical included, is dispatch on, and the call then
    is the public predicate followed by the boxing of its answer. *)
Theorem vctrs_is_vector_nonzero_flag fuel st x dispatch d :
  LOGICAL_get dispatch 0 st = ([], Normal d st) →
  d ≠ 0%Z →
  vctrs_is_vector vec_proxy fuel x dispatch st =
    (b ← vec_is_vector vec_proxy fuel x; Rf_ScalarLogical (bool_as_int b)) st.
Proof.
  intros Hflag Hd. unfold vctrs_is_vector, vec_is_vector.
  rewrite (bind_normal _ _ _ _ _ Hflag).
  unfold int_as_bool. by rewrite (proj2 (Z.eqb_neq d 0) Hd).
Qed.

(** X12.  [vctrs_is_vector] and [vctrs_typeof] read the flag before they
    do anything else: when the flag argument is a live value that is not a
    logical vector, the R error of the host's [LOGICAL()] check ends the
    call at once, for every budget and every proxy: the proxy has not been
    called, nothing has been allocated and the state is unchanged. *)
Theorem non_logical_flag_raises fuel st x dispatch o :
  R_heap st !! dispatch = Some o →
  sxp_type o ≠ LGLSXP →
  ∃ msg,
    vctrs_is_vector vec_proxy fuel x dispatch st = ([], Rf_error msg st) ∧
    vctrs_typeof x dispatch st = ([], Rf_error msg st).
Proof.
  intros Ho Hty.
  destruct (LOGICAL_get_raises dispatch 0 st o Ho Hty) as [msg Hget].
  exists msg. unfold vctrs_is_vector, vctrs_typeof, mbind, M_bind.
  by rewrite Hget.
Qed.

(** X13.  [vctrs_is_vector]: an error raised by the proxy ends the call
    with that error, in the state the proxy left; no result vector is
    allocated. *)
Theorem vctrs_is_vector_proxy_error fuel st x dispatch d msg st' :
  LOGICAL_get dispatch 0 st = ([], Normal d st) →
  vec_typeof_impl st x (int_as_bool d) = vctrs_type_s3 →
  vec_proxy x st = (inl msg, st') →
  vctrs_is_vector vec_proxy (S (S fuel)) x dispatch st =
    ([ProxyCall x], Rf_error msg st').
Proof.
  intros Hflag Hk Hp. unfold vctrs_is_vector.
  rewrite (bind_normal _ _ _ _ _ Hflag).
  unfold mbind, M_bind. by rewrite (vec_is_vector_rec_s3 _ _ _ _ _ Hk), Hp.
Qed.

End predicate_effects.

Lemma vec_is_vector_rec_effects_witness :
  demo = demo ∨ demo = (proxy_self x_factor demo).2.
Proof.
  apply (proj2 (vec_is_vector_rec_effects proxy_self 2 demo x_factor true) demo).
  reflexivity.
Defined.

Lemma vec_is_vector_identity_proxy_witness :
  vec_is_vector proxy_self 2 x_factor demo = ([ProxyCall x_factor], Normal true demo) ∧
  vec_is_vector proxy_self 2 x_custom_list demo =
    ([ProxyCall x_custom_list], Normal false demo).
Proof.
  split.
  - apply (vec_is_vector_identity_proxy proxy_self 0 demo x_factor); reflexivity.
  - apply (vec_is_vector_identity_proxy proxy_self 0 demo x_custom_list); reflexivity.
Defined.

Lemma vctrs_is_vector_no_dispatch_witness :
  vctrs_is_vector proxy_self 1 x_custom_list x_false demo =
    ([], Normal (fresh (dom (R_heap demo)))
           (set_heap (insert (fresh (dom (R_heap demo)))
              (scalar_logical
                 (bool_as_int (is_vector_kind (vec_typeof_impl demo x_custom_list false)))))
              demo)).
Proof.
  apply (vctrs_is_vector_no_dispatch proxy_self 0 demo x_custom_list x_false).
  reflexivity.
Defined.

Lemma vctrs_is_vector_nonzero_flag_witness :
  vctrs_is_vector proxy_self 2 x_factor x_na demo_na =
    (b ← vec_is_vector proxy_self 2 x_factor; Rf_ScalarLogical (bool_as_int b)) demo_na.
Proof.
  apply (vctrs_is_vector_nonzero_flag proxy_self 2 demo_na x_factor x_na NA_LOGICAL);
    [reflexivity | discriminate].
Defined.

Lemma non_logical_flag_raises_witness :
  ∃ msg,
    vctrs_is_vector proxy_self 2 x_factor x_int demo = ([], Rf_error msg demo) ∧
    vctrs_typeof x_factor x_int demo = ([], Rf_error msg demo).
Proof.
  apply (non_logical_flag_raises proxy_self 2 demo x_factor x_int
           (mkSEXPREC INTSXP false 0 [] 3 (data_int [Some 1; Some 2; Some 3]%Z)));
    [reflexivity | discriminate].
Defined.

Lemma vctrs_is_vector_proxy_error_witness :
  vctrs_is_vector proxy_raise 2 x_factor x_true demo =
    ([ProxyCall x_factor], Rf_error "no proxy method" demo).
Proof.
  apply (vctrs_is_vector_proxy_error proxy_raise 0 demo x_factor x_true 1%Z);
    reflexivity.
Defined.

(** ** The unsupported-type error *)

Lemma string_app_backtick_inj s1 s2 : s1 +:+ "`" = s2 +:+ "`" → s1 = s2.
Proof.
  revert s2. induction s1 as [|c s1 IH]; intros [|c' s2]; simpl; try done.
  - intros [= <- H]. by destruct s2.
  - intros [= -> H]. by destruct s1.
  - intros [= -> H]. f_equal. by apply IH.
Qed.

(** X15.  [vctrs_stop_unsupported_type] never returns: it raises an R
    error, leaves the state as it is and calls no proxy; the message names
    the kind and the caller, and two messages are equal only for the same
    kind and the same caller. *)
Theorem vctrs_stop_unsupported_type_raises type fn st :
  vctrs_stop_unsupported_type type fn st =
    ([], Rf_error (unsupported_message type fn) st) ∧
  ∀ type' fn',
    unsupported_message type fn = unsupported_message type' fn' →
    type = type' ∧ fn = fn'.
Proof.
  split; [reflexivity|].
  intros type' fn'. unfold unsupported_message.
  destruct type, type'; simpl; intros H; simplify_eq;
    split; try done; by apply string_app_backtick_inj.
Qed.

Lemma vctrs_stop_unsupported_type_raises_witness :
  vctrs_type_scalar = vctrs_type_scalar ∧ "vec_size" = "vec_size".
Proof.
  apply (proj2 (vctrs_stop_unsupported_type_raises vctrs_type_scalar "vec_size" demo)
           vctrs_type_scalar "vec_size").
  reflexivity.
Defined.

(** ** Constant pool: what the initialiser adds and what it leaves *)

Lemma add_shared_live var a o st b :
  R_heap st !! a = None → is_Some (R_heap st !! b) →
  R_heap (add_shared var a o st) !! b = R_heap st !! b.
Proof.
  intros Ha [o' Hb]. simpl. rewrite lookup_insert_ne; [done|].
  intros ->. simplify_eq.
Qed.

(** Setting up variables at unused addresses leaves live objects alone. *)
Lemma add_all_live l addrs st b :
  fresh_seq l addrs st → is_Some (R_heap st !! b) →
  R_heap (add_all l addrs st) !! b = R_heap st !! b.
Proof.
  revert addrs st. induction l as [|[var o] l IH]; intros [|a addrs] st; try done.
  simpl. intros [Ha Hrest] Hb.
  rewrite IH by (rewrite ?add_shared_live; done).
  by apply add_shared_live.
Qed.

Lemma add_all_precious l addrs st :
  length addrs = length l →
  R_PreciousList (add_all l addrs st) = rev addrs ++ R_PreciousList st.
Proof.
  revert addrs st. induction l as [|[var o] l IH]; intros [|a addrs] st; try done.
  simpl. intros [= Hlen]. rewrite IH by done. simpl. by rewrite <-(assoc_L (++)).
Qed.

Lemma add_all_ppstack l addrs st : R_PPStack (add_all l addrs st) = R_PPStack st.
Proof.
  revert addrs st. induction l as [|[var o] l IH]; intros [|a addrs] st; try done.
  simpl. by rewrite IH.
Qed.

(** The addresses used are pairwise distinct and were all unused at the
    start. *)
Lemma fresh_seq_unused l addrs st :
  length addrs = length l → fresh_seq l addrs st →
  NoDup addrs ∧ ∀ a, a ∈ addrs → R_heap st !! a = None.
Proof.
  revert addrs st. induction l as [|[var o] l IH]; intros [|a addrs] st; try done.
  - intros _ _. split; [constructor|]. by intros a ?%elem_of_nil.
  - simpl. intros [= Hlen] [Ha Hrest].
    destruct (IH _ _ Hlen Hrest) as [Hnd Hun]. split.
    + constructor; [|done]. intros Hin. specialize (Hun a Hin).
      simpl in Hun. by rewrite lookup_insert_eq in Hun.
    + intros b [->|Hb]%elem_of_cons; [done|]. specialize (Hun b Hb).
      simpl in Hun. by apply lookup_insert_None in Hun as [? _].
Qed.

(** A variable that is set up stays as it is while others are set up. *)
Lemma add_all_keeps l addrs st var a o :
  var ∉ l.*1 → fresh_seq l addrs st →
  shared_at st var a o → shared_at (add_all l addrs st) var a o.
Proof.
  revert addrs st. induction l as [|[var' o'] l IH]; intros [|a' addrs] st; try done.
  simpl. intros [Hvar Hl]%not_elem_of_cons [Ha' Hrest] (Hg & Hh & Hp).
  apply IH; [done..|]. split_and!; simpl.
  - by rewrite lookup_insert_ne.
  - rewrite lookup_insert_ne; [done|]. intros ->. simplify_eq.
  - by apply list_elem_of_further.
Qed.

(** Each variable of the layout ends up holding its address and object. *)
Lemma add_all_lookup l addrs st i var o a :
  NoDup l.*1 → fresh_seq l addrs st →
  l !! i = Some (var, o) → addrs !! i = Some a →
  shared_at (add_all l addrs st) var a o.
Proof.
  revert addrs st i.
  induction l as [|[var' o'] l IH]; intros [|a' addrs] st [|i]; try done; simpl.
  - intros [Hvar Hnd]%NoDup_cons [Ha Hrest] [= -> ->] [= ->].
    apply add_all_keeps; [done..|]. apply shared_at_add_shared.
  - intros [_ Hnd]%NoDup_cons [Ha Hrest] Hl Haddr. by eapply IH.
Qed.

(** Variables outside the layout keep their value. *)
Lemma add_all_globals_other l addrs st var :
  var ∉ l.*1 → globals (add_all l addrs st) !! var = globals st !! var.
Proof.
  revert addrs st. induction l as [|[var' o] l IH]; intros [|a addrs] st Hvar;
    try done.
  apply not_elem_of_cons in Hvar as [Hvar Hl].
  simpl. rewrite IH by done. simpl. by rewrite lookup_insert_ne.
Qed.

(** The variables of the layout hold the addresses, in order. *)
Lemma add_all_globals l addrs st :
  NoDup l.*1 → length addrs = length l → fresh_seq l addrs st →
  (λ var, globals (add_all l addrs st) !! var) <$> l.*1 = Some <$> addrs.
Proof.
  intros Hnd Hlen Hfresh. apply list_eq. intros i.
  rewrite !list_lookup_fmap.
  destruct (l !! i) as [[var o]|] eqn:Hl, (addrs !! i) as [a|] eqn:Ha; simpl.
  - f_equal. by eapply (add_all_lookup l addrs st i var o a).
  - apply lookup_lt_Some in Hl. apply lookup_ge_None in Ha. lia.
  - apply lookup_ge_None in Hl. apply lookup_lt_Some in Ha. lia.
  - done.
Qed.

Lemma pool_layout_vars : pool_layout.*1 = shared_vars.
Proof. reflexivity. Qed.

Lemma pool_layout_NoDup : NoDup pool_layout.*1.
Proof. by apply (bool_decide_unpack (NoDup pool_layout.*1)). Qed.

Lemma call_run (f : extern) st v st' :
  f st = (inr v, st') → call f st = ([], Normal v st').
Proof. unfold call. by intros ->. Qed.

Lemma bind_assign {B} var x (f : unit → M B) st :
  (assign var x ≫= f) st = f tt (set_globals (insert var x) st).
Proof. apply bind_modify. Qed.

Lemma bind_with_var {A B} var (g : SEXP → M A) (f : A → M B) st x :
  globals st !! var = Some x →
  (with_var var g ≫= f) st = (g x ≫= f) st.
Proof.
  intros Hvar. unfold with_var. by rewrite bind_assoc, bind_get_state, Hvar.
Qed.

Section initialiser_frame.

Variable Rf_install : string → extern.
Variable Rf_findVar : SEXP → SEXP → extern.

(** The state the initialiser leaves, exactly. *)
Lemma vctrs_init_types_exact ns st sym st1 fn st2 :
  Rf_install "vec_is_vector" st = (inr sym, st1) →
  Rf_findVar sym ns (set_globals (insert "syms_vec_is_vector_dispatch" sym) st1) = (inr fn, st2) →
  wp (vctrs_init_types Rf_install Rf_findVar ns)
     (λ _ st', ∃ addrs,
        length addrs = 9%nat ∧
        fresh_seq pool_layout addrs (after_lookups fn st2) ∧
        st' = initialised addrs fn st2) st.
Proof.
  intros Hinstall HfindVar. unfold vctrs_init_types.
  apply wp_bind. eapply wp_call; [done|].
  apply wp_bind, wp_modify.
  apply wp_bind. eapply wp_with_var; [apply lookup_insert_eq|].
  eapply wp_call; [done|].
  apply wp_bind, wp_modify.
  apply wp_shared_block; [done|]; intros a1 H1.
  apply wp_shared_block; [done|]; intros a2 H2.
  apply wp_shared_block; [done|]; intros a3 H3.
  apply wp_shared_block; [done|]; intros a4 H4.
  apply wp_shared_block; [done|]; intros a5 H5.
  apply wp_shared_block; [done|]; intros a6 H6.
  apply wp_shared_block; [done|]; intros a7 H7.
  apply wp_shared_block; [done|]; intros a8 H8.
  eapply wp_shared_store; [done..|simpl; lia|].
  apply wp_shared_block; [done|]; intros a9 H9.
  eapply wp_shared_store; [done..|simpl; lia|].
  apply wp_bind, wp_modify, wp_modify.
  exists [a1; a2; a3; a4; a5; a6; a7; a8; a9].
  split; [done|]. split; [|done]. simpl. by split_and!.
Qed.

(** X16.  A run of the initialiser only adds to the host state: the nine
    pool variables refer to nine distinct objects at addresses that were
    unused when allocation began, every object that was live then is
    unchanged, the precious list has grown by exactly these nine entries,
    the protect stack is as it was, and [fns_vec_is_vector_dispatch] holds
    what [Rf_findVar] returned. *)
Theorem vctrs_init_types_frame ns st sym st1 fn st2 :
  Rf_install "vec_is_vector" st = (inr sym, st1) →
  Rf_findVar sym ns (set_globals (insert "syms_vec_is_vector_dispatch" sym) st1) = (inr fn, st2) →
  ∃ addrs st',
    vctrs_init_types Rf_install Rf_findVar ns st = ([], Normal tt st') ∧
    length addrs = 9%nat ∧ NoDup addrs ∧
    (∀ a, a ∈ addrs → R_heap st2 !! a = None) ∧
    (λ var, globals st' !! var) <$> shared_vars = Some <$> addrs ∧
    (∀ a, is_Some (R_heap st2 !! a) → R_heap st' !! a = R_heap st2 !! a) ∧
    R_PreciousList st' = rev addrs ++ R_PreciousList st2 ∧
    R_PPStack st' = R_PPStack st2 ∧
    globals st' !! "fns_vec_is_vector_dispatch" = Some fn.
Proof.
  intros Hinstall HfindVar.
  pose proof (vctrs_init_types_exact ns st _ _ _ _ Hinstall HfindVar) as Hwp.
  unfold wp in Hwp.
  destruct (vctrs_init_types Rf_install Rf_findVar ns st)
    as [[|e tr] [[] st'| | |]]; try done.
  destruct Hwp as (addrs & Hlen & Hfresh & ->).
  exists addrs, (initialised addrs fn st2).
  destruct (fresh_seq_unused pool_layout addrs _ Hlen Hfresh) as [Hnd Hun].
  split_and!; try done.
  - rewrite <-pool_layout_vars.
    apply (add_all_globals pool_layout addrs (after_lookups fn st2));
      [apply pool_layout_NoDup|done..].
  - intros a Ha. by apply (add_all_live pool_layout addrs (after_lookups fn st2)).
  - apply (add_all_precious pool_layout addrs (after_lookups fn st2) Hlen).
  - apply (add_all_ppstack pool_layout addrs (after_lookups fn st2)).
  - etrans; [apply (add_all_globals_other pool_layout addrs (after_lookups fn st2))|].
    + by apply (bool_decide_unpack (_ ∉ _)).
    + apply lookup_insert_eq.
Qed.

(** X17.  The initialiser never reuses a pool object: if a pool variable
    refers to a live registered object when allocation begins (as after
    an earlier run), the run makes the variable refer to another object,
    and the old object stays as it was, still on the precious list. *)
Theorem vctrs_init_types_again ns st sym st1 fn st2 var a o :
  Rf_install "vec_is_vector" st = (inr sym, st1) →
  Rf_findVar sym ns (set_globals (insert "syms_vec_is_vector_dispatch" sym) st1) = (inr fn, st2) →
  var ∈ shared_vars →
  shared_at st2 var a o →
  ∃ st' a' o',
    vctrs_init_types Rf_install Rf_findVar ns st = ([], Normal tt st') ∧
    shared_at st' var a' o' ∧ a' ≠ a ∧
    R_heap st' !! a = Some o ∧ a ∈ R_PreciousList st'.
Proof.
  intros Hinstall HfindVar Hvar (Hg & Hh & Hp).
  pose proof (vctrs_init_types_exact ns st _ _ _ _ Hinstall HfindVar) as Hwp.
  unfold wp in Hwp.
  destruct (vctrs_init_types Rf_install Rf_findVar ns st)
    as [[|e tr] [[] st'| | |]]; try done.
  destruct Hwp as (addrs & Hlen & Hfresh & ->).
  destruct (fresh_seq_unused pool_layout addrs _ Hlen Hfresh) as [Hnd Hun].
  assert (∃ i a' o', pool_layout !! i = Some (var, o') ∧ addrs !! i = Some a')
    as (i & a' & o' & Hi & Hai).
  { do 10 (destruct addrs as [|? addrs]; try done).
    apply list_elem_of_In in Hvar. simpl in Hvar.
    destruct Hvar as [<-|[<-|[<-|[<-|[<-|[<-|[<-|[<-|[<-|[]]]]]]]]]];
      [ exists 0%nat | exists 1%nat | exists 2%nat | exists 3%nat | exists 4%nat
      | exists 5%nat | exists 6%nat | exists 7%nat | exists 8%nat ];
      by eauto. }
  exists (initialised addrs fn st2), a', o'. split; [done|].
  split_and!.
  - apply (add_all_lookup pool_layout addrs (after_lookups fn st2) i); try done.
    apply pool_layout_NoDup.
  - intros ->. apply list_elem_of_lookup_2 in Hai. specialize (Hun _ Hai).
    simpl in Hun. congruence.
  - etrans; [apply (add_all_live pool_layout addrs (after_lookups fn st2)); by eauto|].
    done.
  - unfold initialised.
    change (a ∈ R_PreciousList (add_all pool_layout addrs (after_lookups fn st2))).
    rewrite add_all_precious by done. apply elem_of_app. by right.
Qed.

(** X18.  When one of the two look-ups raises, the initialiser ends with
    that error in the state the look-up left: no pool vector has been
    allocated and no pool variable assigned. *)
Theorem vctrs_init_types_lookup_fails ns st :
  (∀ msg st1,
     Rf_install "vec_is_vector" st = (inl msg, st1) →
     vctrs_init_types Rf_install Rf_findVar ns st = ([], Rf_error msg st1)) ∧
  (∀ sym st1 msg st2,
     Rf_install "vec_is_vector" st = (inr sym, st1) →
     Rf_findVar sym ns (set_globals (insert "syms_vec_is_vector_dispatch" sym) st1)
       = (inl msg, st2) →
     vctrs_init_types Rf_install Rf_findVar ns st = ([], Rf_error msg st2)).
Proof.
  unfold vctrs_init_types. split.
  - intros msg st1 Hinstall. by rewrite bind_call, Hinstall.
  - intros sym st1 msg st2 Hinstall HfindVar.
    rewrite (bind_normal _ _ _ _ _ (call_run _ _ _ _ Hinstall)), bind_assign.
    rewrite (bind_with_var _ _ _ _ sym) by apply lookup_insert_eq.
    by rewrite bind_call, HfindVar.
Qed.

End initialiser_frame.

Section pool_kinds.

Variable vec_proxy : SEXP → extern.

Lemma constant_classified st a ty n d k :
  R_heap st !! a = Some (constant ty n d) →
  (ty = VECSXP ∧ k = vctrs_type_list ∨ primitive_kind ty = Some k) →
  (∀ dispatch, vec_typeof_impl st a dispatch = k) ∧
  ∀ fuel, vec_is_vector vec_proxy (S fuel) a st = ([], Normal true st).
Proof.
  intros Ha Hk.
  assert (∀ dispatch, vec_typeof_impl st a dispatch = k) as Hkind.
  { intros dispatch. unfold vec_typeof_impl, TYPEOF, OBJECT, deref.
    rewrite (lookup_total_correct _ _ _ Ha). simpl.
    destruct Hk as [[-> ->]|Hk]; [done|]. destruct ty; simplify_eq/=; done. }
  split; [done|]. intros fuel. unfold vec_is_vector.
  rewrite vec_is_vector_rec_direct; rewrite Hkind.
  - destruct Hk as [[-> ->]|Hk]; [done|]. destruct ty; simplify_eq/=; done.
  - destruct Hk as [[-> ->]|Hk]; [done|]. destruct ty; simplify_eq/=; done.
Qed.

(** X19.  In a state where the pool is ready, each pool variable refers to
    a value that the resolver classifies as the kind the variable stands
    for, whatever the dispatch flag, and that [vec_is_vector] accepts
    without calling the proxy. *)
Theorem pool_objects_classified st var k :
  pool_ready st →
  (var, k) ∈ pool_kinds →
  ∃ a,
    globals st !! var = Some a ∧
    (∀ dispatch, vec_typeof_impl st a dispatch = k) ∧
    ∀ fuel, vec_is_vector vec_proxy (S fuel) a st = ([], Normal true st).
Proof.
  intros (H1 & H2 & H3 & H4 & H5 & H6 & H7 & H8 & H9 & _) Hin.
  apply list_elem_of_In in Hin. simpl in Hin.
  destruct Hin as [Hin|[Hin|[Hin|[Hin|[Hin|[Hin|[Hin|[Hin|[Hin|[]]]]]]]]]];
    injection Hin as <- <-;
    match goal with H : shared _ ?v _ |- ∃ _, globals _ !! ?v = _ ∧ _ =>
      destruct H as (a & Hg & Hh & _); exists a; split; [done|];
      eapply constant_classified; [done|]; auto end.
Qed.

End pool_kinds.

Lemma vctrs_init_types_frame_witness :
  ∃ addrs st',
    vctrs_init_types stub_install stub_findVar R_NilValue demo = ([], Normal tt st') ∧
    length addrs = 9%nat ∧ NoDup addrs ∧
    (∀ a, a ∈ addrs → R_heap (stub_install "vec_is_vector" demo).2 !! a = None) ∧
    (λ var, globals st' !! var) <$> shared_vars = Some <$> addrs ∧
    (∀ a, is_Some (R_heap (stub_install "vec_is_vector" demo).2 !! a) →
          R_heap st' !! a = R_heap (stub_install "vec_is_vector" demo).2 !! a) ∧
    R_PreciousList st' = rev addrs ++ [] ∧
    R_PPStack st' = [] ∧
    globals st' !! "fns_vec_is_vector_dispatch" = Some R_NilValue.
Proof.
  apply (vctrs_init_types_frame stub_install stub_findVar R_NilValue demo
           _ _ _ _ eq_refl eq_refl).
Defined.

Lemma vctrs_init_types_again_witness :
  ∃ st' a' o',
    vctrs_init_types stub_install stub_findVar R_NilValue demo_ready = ([], Normal tt st') ∧
    shared_at st' "vctrs_shared_true" a' o' ∧ a' ≠ 22%positive ∧
    R_heap st' !! 22%positive = Some (constant LGLSXP 1 (data_int [Some 1%Z])) ∧
    22%positive ∈ R_PreciousList st'.
Proof.
  apply (vctrs_init_types_again stub_install stub_findVar R_NilValue demo_ready
           _ _ _ _ "vctrs_shared_true" 22%positive _ eq_refl eq_refl).
  - apply list_elem_of_In. vm_compute. tauto.
  - split_and!; [reflexivity..|]. apply list_elem_of_In. vm_compute. tauto.
Defined.

Lemma vctrs_init_types_lookup_fails_witness :
  vctrs_init_types install_raise stub_findVar R_NilValue demo =
    ([], Rf_error "cannot allocate symbol" demo) ∧
  vctrs_init_types stub_install findVar_raise R_NilValue demo =
    ([], Rf_error "invalid environment"
           (set_globals (insert "syms_vec_is_vector_dispatch" 14%positive)
              (stub_install "vec_is_vector" demo).2)).
Proof.
  split.
  - apply (proj1 (vctrs_init_types_lookup_fails install_raise stub_findVar
                    R_NilValue demo)). reflexivity.
  - eapply (proj2 (vctrs_init_types_lookup_fails stub_install findVar_raise
                     R_NilValue demo) 14%positive); reflexivity.
Defined.

Lemma pool_objects_classified_witness :
  ∃ a,
    globals demo_ready !! "vctrs_shared_empty_list" = Some a ∧
    (∀ dispatch, vec_typeof_impl demo_ready a dispatch = vctrs_type_list) ∧
    ∀ fuel, vec_is_vector proxy_raise (S fuel) a demo_ready = ([], Normal true demo_ready).
Proof.
  apply (pool_objects_classified proxy_raise demo_ready).
  - pose proof (vctrs_init_types_ready stub_install stub_findVar
                  R_NilValue demo _ _ _ _ eq_refl eq_refl) as Hwp.
    unfold wp in Hwp. unfold demo_ready.
    by destruct (vctrs_init_types stub_install stub_findVar R_NilValue demo)
      as [[|e tr] [[] st'| | |]].
  - apply list_elem_of_In. vm_compute. tauto.
Defined.
